(** * kafka-poc: a TLS-verified Kafka client bootstrap, embedded in Rocq

    The development follows the two Go sources of the repository:
    - [kafka/kafka.go]: configuration, certificate verification, the
      consumer and producer factories, the two supervision loops;
    - [main.go]: the signal handler, the deferred cleanup and the message
      dispatch loop.

    Go strings are byte sequences and are modelled as [string] (a list of
    [ascii]); a nil-able pointer or error is an [option]; [int32] and
    [int64] fields are [Z].  Everything the program obtains from a library
    (PEM and URL parsing, the TLS dial, chain verification, the broker
    clients, the clock) is a field of the record [World]; the control flow
    around those calls is translated function by function.

    Part I holds the definitions, Part II the theorems. *)

From Stdlib Require Import ZArith Ascii Lia.
From stdpp Require Import base list strings pretty.

Local Open Scope Z_scope.
Local Open Scope stdpp_scope.

(** * Part I: the program *)

(** ** The part of Go's [strings] and [fmt] packages the program uses *)

(** [strings.Split(s, sep)] for a one-byte separator: the substrings
    between the separators, in order; the empty string yields one empty
    entry. *)
Fixpoint strings_Split (s : string) (sep : ascii) : list string :=
  match s with
  | EmptyString => [EmptyString]
  | String c rest =>
      if Ascii.eqb c sep then EmptyString :: strings_Split rest sep
      else match strings_Split rest sep with
           | [] => [String c EmptyString]
           | hd :: tl => String c hd :: tl
           end
  end.

(** [strings.Join(elems, sep)]. *)
Fixpoint strings_Join (elems : list string) (sep : string) : string :=
  match elems with
  | [] => ""
  | e :: rest =>
      match rest with
      | [] => e
      | _ :: _ => e +:+ sep +:+ strings_Join rest sep
      end
  end.

Definition comma : ascii := "," % char.

(** Does the byte [c] occur in [s]? *)
Fixpoint occurs (c : ascii) (s : string) : bool :=
  match s with
  | EmptyString => false
  | String d rest => Ascii.eqb d c || occurs c rest
  end.

(** The line feed of a Go format string. *)
Definition nl : string := String (ascii_of_nat 10) "".

(** How [fmt] renders a [[]string] under the verb [%s]. *)
Definition fmt_strings (l : list string) : string :=
  "[" +:+ strings_Join l " " +:+ "]".

(** How [fmt] renders an integer under the verb [%d]. *)
Definition fmt_int (n : Z) : string := pretty n.

(** A Go [error] is carried by its message; [nil] is [None]. *)
Definition error : Type := string.

(** ** Library data: crypto/x509, crypto/tls, net/url, time *)

Module x509.
(** A parsed certificate, identified by its DER encoding. *)
Record Certificate := mkCertificate { Raw : string }.

Definition CertPool : Type := list Certificate.

Definition NewCertPool : CertPool := [].

(** Only [Roots] is set by the program; the other options keep their
    zero value (no DNS name, no intermediates, the current time). *)
Record VerifyOptions := mkVerifyOptions { Roots : CertPool }.
End x509.

Module tls.
(** The client key pair built by [tls.X509KeyPair]. *)
Record Certificate := mkCertificate {
  CertificateChain : list string;
  PrivateKey : string
}.

Record Config := mkConfig {
  Certificates : list Certificate;
  InsecureSkipVerify : bool;
  RootCAs : x509.CertPool
}.

(** [conn.ConnectionState()] of a completed handshake. *)
Record ConnectionState := mkConnectionState {
  PeerCertificates : list x509.Certificate
}.
End tls.

Module url.
(** Of a parsed URL the program reads [Host] only. *)
Record URL := mkURL { Host : string }.
End url.

Module time.
(** A [time.Time] value; the zero value is January 1, year 1 UTC. *)
Record Time := mkTime { wall : Z; ext : Z }.

Definition zero : Time := mkTime 0 0.

(** [time.Second], in nanoseconds. *)
Definition Second : Z := 1000000000.
End time.

(** ** Library data: sarama and sarama-cluster *)

Module sarama.
(** An inbound record; [Timestamp] is the broker-side time. *)
Record ConsumerMessage := mkConsumerMessage {
  Value : string;
  Topic : string;
  Partition : Z;
  Offset : Z;
  Timestamp : time.Time
}.

(** A publish confirmation. *)
Record ProducerMessage := mkProducerMessage {
  pm_Topic : string;
  pm_Value : string
}.

Definition OffsetNewest : Z := -1.
Definition WaitForAll : Z := -1.

(** The fields of [sarama.Config] that [createKafkaProducer] assigns;
    the others keep what [sarama.NewConfig] put there. *)
Record Config := mkConfig {
  Net_TLS_Config : tls.Config;
  Net_TLS_Enable : bool;
  Producer_Return_Errors : bool;
  Producer_RequiredAcks : Z;
  Producer_Flush_Messages : Z;
  ClientID : string
}.

(** Handles are opaque identifiers handed out by the library. *)
Definition AsyncProducer : Type := nat.
End sarama.

Module cluster.
Definition StrategyRoundRobin : string := "roundrobin".

(** A rebalance notification, with its two fields as [fmt] prints them. *)
Record Notification := mkNotification {
  Type_ : string;
  Current : string
}.

(** The fields of [cluster.Config] that [createKafkaConsumer] assigns. *)
Record Config := mkConfig {
  Net_TLS_Config : tls.Config;
  Net_TLS_Enable : bool;
  Group_PartitionStrategy : string;
  Group_Return_Notifications : bool;
  ClientID : string;
  Consumer_Return_Errors : bool;
  Consumer_Offsets_CommitInterval : Z;
  Consumer_Offsets_Initial : Z
}.

Definition Consumer : Type := nat.
End cluster.

(** ** Configuration and the observable trace *)

(** [type Config struct], filled from the environment. *)
Record Config := mkConfig {
  URL : string;
  TrustedCert : string;
  ClientCertKey : string;
  ClientCert : string;
  Prefix : string;
  ConsumerGroup : string
}.

(** What a run of the start-up code does to the outside, in order.
    [Verified] records what one call of [verifyServerCert] returned to
    the loop of [Connect]; the two [New...] events are the calls of the
    library constructors, which open the data connections. *)
Inductive Event :=
| Stdout (text : string)
| Logged (text : string)
| Dialed (network addr : string)
| Verified (addr : string) (ok : bool) (err : option error)
| NewConsumer (brokers : list string) (groupID : string)
    (topics : list string) (config : cluster.Config)
| NewAsyncProducer (brokers : list string) (config : sarama.Config).

Definition Trace : Type := list Event.

(** The libraries and the environment the program runs against.  A call
    whose answer depends on the network or on the clock receives the trace
    so far, so that the same call may be answered differently later. *)
Record World := mkWorld {
  (** [envdecode.MustDecode]: the decoded record, or the diagnostic it
      terminates the process with. *)
  envdecode_MustDecode : Config + string;
  os_Getenv : string → string;
  base64_DecodeString : string → string + error;
  (** The certificates [AppendCertsFromPEM] manages to parse out of PEM data. *)
  pem_certificates : string → list x509.Certificate;
  tls_X509KeyPair : string → string → tls.Certificate + error;
  url_Parse : string → url.URL + error;
  tls_Dial : Trace → string → string → tls.Config → tls.ConnectionState + error;
  x509_Verify : Trace → x509.Certificate → x509.VerifyOptions → option error;
  time_Now : Trace → time.Time;
  time_Format : time.Time → string → string;
  cluster_Validate : cluster.Config → option error;
  cluster_NewConsumer :
    Trace → list string → string → list string → cluster.Config →
    cluster.Consumer + error;
  sarama_Validate : sarama.Config → option error;
  sarama_NewAsyncProducer :
    Trace → list string → sarama.Config → sarama.AsyncProducer + error
}.

(** ** Processes: a trace, and three ways to end *)

Inductive Outcome (A : Type) :=
| Ret (a : A)
| Fatal (msg : string)    (* log.Fatal: the message is logged, exit status 1 *)
| Panic (msg : string).   (* a run-time panic *)
Arguments Ret {A} a.
Arguments Fatal {A} msg.
Arguments Panic {A} msg.

Definition Proc (A : Type) : Type := Trace → Outcome A * Trace.

#[global] Instance Proc_ret : MRet Proc := λ A a tr, (Ret a, tr).

#[global] Instance Proc_bind : MBind Proc := λ A B k m tr,
  match m tr with
  | (Ret a, tr') => k a tr'
  | (Fatal msg, tr') => (Fatal msg, tr')
  | (Panic msg, tr') => (Panic msg, tr')
  end.

Definition emit (e : Event) : Proc unit := λ tr, (Ret (), tr ++ [e]).

(** A library call answered from the trace so far. *)
Definition ask {A : Type} (f : Trace → A) : Proc A := λ tr, (Ret (f tr), tr).

Definition fmt_Println (text : string) : Proc unit := emit (Stdout text).
Definition log_Println (text : string) : Proc unit := emit (Logged text).

Definition log_Fatal {A : Type} (msg : string) : Proc A :=
  λ tr, (Fatal msg, tr ++ [Logged msg]).

Definition panic {A : Type} (msg : string) : Proc A := λ tr, (Panic msg, tr).

(** [l[0]] on a slice: a run-time panic when the slice is empty. *)
Definition index0 {A : Type} (l : list A) : Proc A :=
  match l !! 0%nat with
  | Some x => mret x
  | None => panic "runtime error: index out of range [0] with length 0"
  end.

(** [roots.AppendCertsFromPEM(pem)]: the pool with the parsed certificates
    added, and whether at least one was parsed. *)
Definition AppendCertsFromPEM (W : World) (roots : x509.CertPool) (pem : string)
  : x509.CertPool * bool :=
  let certs := pem_certificates W pem in
  (roots ++ certs, bool_decide (certs ≠ [])).

(** Does an event construct a broker client? *)
Definition constructs (e : Event) : bool :=
  match e with
  | NewConsumer _ _ _ _ | NewAsyncProducer _ _ => true
  | _ => false
  end.

(** ** kafka.go *)

(** [type Client struct]; the zero value has three nil fields. *)
Record Client := mkClient {
  Producer : option sarama.AsyncProducer;
  Consumer : option cluster.Consumer;
  config : option Config
}.

Record messageMetadata := mkMessageMetadata { ReceivedAt : time.Time }.

(** [type Message struct]: the raw data received by a consumer. *)
Record Message := mkMessage {
  Partition : Z;
  Offset : Z;
  Topic : string;
  Value : string;
  Metadata : messageMetadata
}.

(** [func (kc *Config) topic(topicName string) string] *)
Definition topic (kc : Config) (topicName : string) : string :=
  let topic := "" in
  if decide (Prefix kc ≠ "")
  then strings_Join [Prefix kc; topicName] ""
  else topic.

(** [func (kc *Config) group() string] *)
Definition group (kc : Config) : string :=
  let group := ConsumerGroup kc in
  if decide (Prefix kc ≠ "")
  then strings_Join [Prefix kc; group] ""
  else group.

Section Kafka.
Context (W : World).

(** [func decodeBase64(base64Data string) string] *)
Definition decodeBase64 (base64Data : string) : Proc string :=
  match base64_DecodeString W base64Data with
  | inr _ => log_Fatal "Cannot parse base64"
  | inl value => mret value
  end.

(** [func (kc *Config) createTLSConfig() *tls.Config] *)
Definition createTLSConfig (kc : Config) : Proc tls.Config :=
  let '(roots, ok) := AppendCertsFromPEM W x509.NewCertPool (TrustedCert kc) in
  (if negb ok
   then log_Println ("Unable to parse Root Cert: " +:+ TrustedCert kc)
   else mret ());;
  match tls_X509KeyPair W (ClientCert kc) (ClientCertKey kc) with
  | inr err => log_Fatal err
  | inl cert =>
      mret {| tls.Certificates := [cert];
              tls.InsecureSkipVerify := true;
              tls.RootCAs := roots |}
  end.

(** The loop of [brokerAddresses]: [addrs[i] = u.Host] for the entries
    from index [i] on. *)
Fixpoint brokerAddresses_loop (i : nat) (urls addrs : list string)
  : Proc (list string) :=
  match urls with
  | [] => mret addrs
  | v :: rest =>
      match url_Parse W v with
      | inr err => log_Fatal err
      | inl u => brokerAddresses_loop (S i) rest (<[i := url.Host u]> addrs)
      end
  end.

(** [func (kc *Config) brokerAddresses() []string] *)
Definition brokerAddresses (kc : Config) : Proc (list string) :=
  let urls := strings_Split (URL kc) comma in
  let addrs := replicate (length urls) "" in
  brokerAddresses_loop 0 urls addrs.

(** [func verifyServerCert(tc *tls.Config, caCert string, url string) (bool, error)] *)
Definition verifyServerCert (tc : tls.Config) (caCert url : string)
  : Proc (bool * option error) :=
  r ← ask (λ tr, tls_Dial W tr "tcp" url tc);
  emit (Dialed "tcp" url);;
  match r with
  | inr err => mret (false, Some err)
  | inl conn =>
      serverCert ← index0 (tls.PeerCertificates conn);
      let '(roots, ok) := AppendCertsFromPEM W x509.NewCertPool caCert in
      if negb ok then mret (false, Some "Unable to parse Trusted Cert")
      else
        let opts := {| x509.Roots := roots |} in
        v ← ask (λ tr, x509_Verify W tr serverCert opts);
        match v with
        | Some err =>
            log_Println "Unable to verify Server Cert";;
            mret (false, Some err)
        | None => mret (true, None)
        end
  end.

(** The layout string handed to [time.Format]. *)
Definition clientID_layout : string := "20200102150405".

(** The configuration [createKafkaConsumer] builds before validating. *)
Definition consumerConfig (kc : Config) (tc : tls.Config) (now : time.Time)
  : cluster.Config :=
  {| cluster.Net_TLS_Config := tc;
     cluster.Net_TLS_Enable := true;
     cluster.Group_PartitionStrategy := cluster.StrategyRoundRobin;
     cluster.Group_Return_Notifications := true;
     cluster.ClientID :=
       strings_Join [ConsumerGroup kc; time_Format W now clientID_layout] "-";
     cluster.Consumer_Return_Errors := true;
     cluster.Consumer_Offsets_CommitInterval := time.Second;
     cluster.Consumer_Offsets_Initial := sarama.OffsetNewest |}.

(** [func (kc *Config) createKafkaConsumer(brokers []string, tc *tls.Config) *cluster.Consumer] *)
Definition createKafkaConsumer (kc : Config) (brokers : list string)
    (tc : tls.Config) : Proc cluster.Consumer :=
  now ← ask (time_Now W);
  let config := consumerConfig kc tc now in
  let topics := [topic kc "order_events"] in
  log_Println ("Consuming topic " +:+ fmt_strings topics
               +:+ " on brokers: " +:+ fmt_strings brokers);;
  match cluster_Validate W config with
  | Some err => log_Fatal err
  | None =>
      r ← ask (λ tr, cluster_NewConsumer W tr brokers (group kc) topics config);
      emit (NewConsumer brokers (group kc) topics config);;
      match r with
      | inr err => log_Fatal err
      | inl consumer => mret consumer
      end
  end.

(** The configuration [createKafkaProducer] builds before validating. *)
Definition producerConfig (kc : Config) (tc : tls.Config) (now : time.Time)
  : sarama.Config :=
  {| sarama.Net_TLS_Config := tc;
     sarama.Net_TLS_Enable := true;
     sarama.Producer_Return_Errors := true;
     sarama.Producer_RequiredAcks := sarama.WaitForAll;
     sarama.Producer_Flush_Messages := 1;
     sarama.ClientID :=
       strings_Join [ConsumerGroup kc; time_Format W now clientID_layout] "-" |}.

(** [func (kc *Config) createKafkaProducer(brokers []string, tc *tls.Config) sarama.AsyncProducer] *)
Definition createKafkaProducer (kc : Config) (brokers : list string)
    (tc : tls.Config) : Proc sarama.AsyncProducer :=
  now ← ask (time_Now W);
  let config := producerConfig kc tc now in
  match sarama_Validate W config with
  | Some err => log_Fatal err
  | None =>
      r ← ask (λ tr, sarama_NewAsyncProducer W tr brokers config);
      emit (NewAsyncProducer brokers config);;
      match r with
      | inr err => log_Fatal err
      | inl producer => mret producer
      end
  end.
End Kafka.

Section Connect.
Context (W : World).

(** Lines 55 to 64 of [Connect]: the record decoded from the environment,
    with the three PEM fields base64-decoded outside production. *)
Definition loadConfig : Proc Config :=
  config ← match envdecode_MustDecode W with
           | inl c => mret c
           | inr msg => log_Fatal msg
           end;
  if decide (os_Getenv W "ENVIRONMENT" ≠ "production") then
    trustedCert ← decodeBase64 W (TrustedCert config);
    clientCertKey ← decodeBase64 W (ClientCertKey config);
    clientCert ← decodeBase64 W (ClientCert config);
    mret {| URL := URL config;
            TrustedCert := trustedCert;
            ClientCertKey := clientCertKey;
            ClientCert := clientCert;
            Prefix := Prefix config;
            ConsumerGroup := ConsumerGroup config |}
  else mret config.

(** The loop [for _, b := range brokerAddrs] of [Connect]. *)
Fixpoint verifyBrokers (tlsConfig : tls.Config) (caCert : string)
    (brokerAddrs : list string) : Proc unit :=
  match brokerAddrs with
  | [] => mret ()
  | b :: rest =>
      '(ok, err) ← verifyServerCert W tlsConfig caCert b;
      emit (Verified b ok err);;
      match err with
      | Some e => log_Fatal ("Get Server Cert Error: " +:+ e)
      | None =>
          if negb ok
          then log_Fatal ("Broker " +:+ b +:+ " has invalid certificate!")
          else verifyBrokers tlsConfig caCert rest
      end
  end.

(** [Connect] from line 66 on, for the loaded configuration. *)
Definition connectWith (kc : Client) (config : Config) : Proc Client :=
  tlsConfig ← createTLSConfig W config;
  brokerAddrs ← brokerAddresses W config;
  verifyBrokers tlsConfig (TrustedCert config) brokerAddrs;;
  log_Println "All broker server certificates are valid!";;
  consumer ← createKafkaConsumer W config brokerAddrs tlsConfig;
  producer ← createKafkaProducer W config brokerAddrs tlsConfig;
  mret {| Producer := Some producer;
          Consumer := Some consumer;
          config := Some config |}.

(** [func (kc *Client) Connect() *Client] *)
Definition Connect (kc : Client) : Proc Client :=
  fmt_Println "Connecting to Kafka brokers...";;
  config ← loadConfig;
  connectWith kc config.
End Connect.

(** ** The supervision loops of kafka.go *)

(** A receive-only view of a Go channel: what is queued, and whether the
    sender has closed it. *)
Record Chan (A : Type) := mkChan { queued : list A; closed : bool }.
Arguments mkChan {A} queued closed.
Arguments queued {A} c.
Arguments closed {A} c.

Inductive Recv (A : Type) :=
| Blocks
| Receives (v : A) (c : Chan A).
Arguments Blocks {A}.
Arguments Receives {A} v c.

(** [<-c]: the next queued value; on a closed and drained channel the zero
    value, at once; on an open empty channel the receive blocks. *)
Definition recv {A : Type} (zero : A) (c : Chan A) : Recv A :=
  match queued c with
  | v :: rest => Receives v (mkChan rest (closed c))
  | [] => if closed c then Receives zero c else Blocks
  end.

(** The two source channels of a loop. *)
Record Sources (A B : Type) := mkSources { first : Chan A; second : Chan B }.
Arguments mkSources {A B} first second.
Arguments first {A B} s.
Arguments second {A B} s.

Inductive Selected (A B : Type) :=
| SelectBlocks
| SelectFirst (v : A) (s : Sources A B)
| SelectSecond (v : B) (s : Sources A B).
Arguments SelectBlocks {A B}.
Arguments SelectFirst {A B} v s.
Arguments SelectSecond {A B} v s.

(** A [select] over two receive cases; [pick_first] stands for the
    run-time's choice when both are ready. *)
Definition select2 {A B : Type} (pick_first : bool) (za : A) (zb : B)
    (s : Sources A B) : Selected A B :=
  match recv za (first s), recv zb (second s) with
  | Blocks, Blocks => SelectBlocks
  | Receives v c, Blocks => SelectFirst v (mkSources c (second s))
  | Blocks, Receives v c => SelectSecond v (mkSources (first s) c)
  | Receives va ca, Receives vb cb =>
      if pick_first then SelectFirst va (mkSources ca (second s))
      else SelectSecond vb (mkSources (first s) cb)
  end.

(** What the body of a [for] loop asks of the loop. *)
Inductive Flow := Continue | Leave.

(** One pass through a loop body: blocked at the [select], or done with
    the lines it printed. *)
Definition Pass (A B : Type) : Type := option (Flow * Sources A B * list string).

(** The body of the loop of [ShowNotifications]. *)
Definition ShowNotifications_body (pick_first : bool)
    (s : Sources (option cluster.Notification) (option sarama.ProducerMessage))
  : Pass (option cluster.Notification) (option sarama.ProducerMessage) :=
  match select2 pick_first None None s with
  | SelectBlocks => None
  | SelectFirst notification s' =>
      match notification with
      | Some n =>
          Some (Continue, s',
                ["Notification Type:  " +:+ cluster.Type_ n;
                 "Notification Current:  " +:+ cluster.Current n])
      | None => Some (Continue, s', [])
      end
  | SelectSecond success s' =>
      match success with
      | Some m =>
          Some (Continue, s',
                ["Successfull delivery to:  " +:+ sarama.pm_Topic m;
                 "Message:  " +:+ sarama.pm_Value m])
      | None => Some (Continue, s', [])
      end
  end.

(** The body of the loop of [ShowErrors]. *)
Definition ShowErrors_body (pick_first : bool)
    (s : Sources (option error) (option error))
  : Pass (option error) (option error) :=
  match select2 pick_first None None s with
  | SelectBlocks => None
  | SelectFirst err s' =>
      match err with
      | Some e => Some (Continue, s', ["Error occoured:  " +:+ e])
      | None => Some (Continue, s', [])
      end
  | SelectSecond err s' =>
      match err with
      | Some e => Some (Continue, s', ["Error occoured:  " +:+ e])
      | None => Some (Continue, s', [])
      end
  end.

(** What happens around a loop, one tick at a time: the library sends on
    or closes a source channel, or the loop is scheduled for one pass. *)
Inductive Tick (A B : Type) :=
| SendFirst (v : A)
| SendSecond (v : B)
| CloseFirst
| CloseSecond
| Iterate (pick_first : bool).
Arguments SendFirst {A B} v.
Arguments SendSecond {A B} v.
Arguments CloseFirst {A B}.
Arguments CloseSecond {A B}.
Arguments Iterate {A B} pick_first.

Inductive Status := Running | Exited.

Record Loop (A B : Type) := mkLoop {
  status : Status;
  sources : Sources A B;
  printed : list string
}.
Arguments mkLoop {A B} status sources printed.
Arguments status {A B} l.
Arguments sources {A B} l.
Arguments printed {A B} l.

Definition send {A : Type} (v : A) (c : Chan A) : Chan A :=
  if closed c then c else mkChan (queued c ++ [v]) false.

Definition close_chan {A : Type} (c : Chan A) : Chan A := mkChan (queued c) true.

(** [for { body }]: the loop goes on until its body leaves it. *)
Definition loop_step {A B : Type} (body : bool → Sources A B → Pass A B)
    (l : Loop A B) (t : Tick A B) : Loop A B :=
  match status l with
  | Exited => l
  | Running =>
      let s := sources l in
      match t with
      | SendFirst v => mkLoop Running (mkSources (send v (first s)) (second s)) (printed l)
      | SendSecond v => mkLoop Running (mkSources (first s) (send v (second s))) (printed l)
      | CloseFirst => mkLoop Running (mkSources (close_chan (first s)) (second s)) (printed l)
      | CloseSecond => mkLoop Running (mkSources (first s) (close_chan (second s))) (printed l)
      | Iterate pick_first =>
          match body pick_first s with
          | None => l
          | Some (Continue, s', out) => mkLoop Running s' (printed l ++ out)
          | Some (Leave, s', out) => mkLoop Exited s' (printed l ++ out)
          end
      end
  end.

Definition run_loop {A B : Type} (body : bool → Sources A B → Pass A B)
    (ticks : list (Tick A B)) (l : Loop A B) : Loop A B :=
  foldl (loop_step body) l ticks.

(** [func (kc *Client) ShowNotifications()], run against the ticks. *)
Definition ShowNotifications
    (ticks : list (Tick (option cluster.Notification) (option sarama.ProducerMessage)))
    (s : Sources (option cluster.Notification) (option sarama.ProducerMessage))
  : Loop (option cluster.Notification) (option sarama.ProducerMessage) :=
  run_loop ShowNotifications_body ticks
    (mkLoop Running s ["Starting Kafka notifications go routine..."]).

(** [func (kc *Client) ShowErrors()], run against the ticks. *)
Definition ShowErrors (ticks : list (Tick (option error) (option error)))
    (s : Sources (option error) (option error))
  : Loop (option error) (option error) :=
  run_loop ShowErrors_body ticks
    (mkLoop Running s ["Starting Kafka Errors go routine..."]).

(** ** main.go *)

(** [func processMessage(msg *sarama.ConsumerMessage, kc kafka.Client)]:
    the [message] it builds and the text it prints.  The composite literal
    names four fields; [Metadata] is not among them and keeps its zero
    value. *)
Definition processMessage (msg : sarama.ConsumerMessage) (kc : Client)
  : Message * string :=
  let message :=
    {| Partition := sarama.Partition msg;
       Offset := sarama.Offset msg;
       Topic := sarama.Topic msg;
       Value := sarama.Value msg;
       Metadata := {| ReceivedAt := time.zero |} |} in
  (message,
   "Message Received:" +:+ nl +:+
   "Topic: " +:+ Topic message +:+ nl +:+
   "Partition: " +:+ fmt_int (Partition message) +:+ nl +:+
   "Offset: " +:+ fmt_int (Offset message) +:+ nl).

(** The loop [for message := range kafkaClient.Consumer.Messages()] over
    what the stream delivers before it is closed: one handling unit per
    non-nil record, listed in the order they are started. *)
Fixpoint dispatch (kafkaClient : Client)
    (stream : list (option sarama.ConsumerMessage)) : list (Message * string) :=
  match stream with
  | [] => []
  | message :: rest =>
      match message with
      | Some m => processMessage m kafkaClient :: dispatch kafkaClient rest
      | None => dispatch kafkaClient rest
      end
  end.

(** *** Shutdown *)

Inductive Handle := TheProducer | TheConsumer.

Inductive Action :=
| Println (text : string)
| Close (h : Handle)       (* [h.Close()], the returned error dropped *)
| Exit (code : Z).         (* the process ends *)

(** The goroutine started in [main] once a signal arrives. *)
Definition signal_handler : list Action :=
  [Println "Closing consumer and producer..."; Close TheProducer;
   Close TheConsumer; Exit 1].

(** The two [defer]red calls of [main], last registered first. *)
Definition deferred_cleanup : list Action := [Close TheConsumer; Close TheProducer].

(** What [main] does once the message stream is closed: the deferred calls,
    then the return from [main] ends the process. *)
Definition main_return : list Action := deferred_cleanup ++ [Exit 0].

(** What a library's [Close] does, given how often it has been called on
    the handle before. *)
Inductive CloseResult :=
| Returns (err : option error)
| Panics (msg : string).

Definition CloseLib : Type := Handle → nat → CloseResult.

Inductive Ending := Exits (code : Z) | Crashes (msg : string).

Record Process := mkProcess {
  producer_closes : nat;      (* calls of [Producer.Close] so far *)
  consumer_closes : nat;      (* calls of [Consumer.Close] so far *)
  output : list string;
  ended : option Ending
}.

Definition started : Process := mkProcess 0 0 [] None.

Definition closes (p : Process) (h : Handle) : nat :=
  match h with
  | TheProducer => producer_closes p
  | TheConsumer => consumer_closes p
  end.

Definition closed_handle (p : Process) (h : Handle) : bool :=
  bool_decide (0 < closes p h)%nat.

Definition count_close (p : Process) (h : Handle) (e : option Ending) : Process :=
  match h with
  | TheProducer =>
      mkProcess (S (producer_closes p)) (consumer_closes p) (output p) e
  | TheConsumer =>
      mkProcess (producer_closes p) (S (consumer_closes p)) (output p) e
  end.

(** One action of either goroutine; nothing runs once the process ended. *)
Definition act (lib : CloseLib) (p : Process) (a : Action) : Process :=
  match ended p with
  | Some _ => p
  | None =>
      match a with
      | Println text =>
          mkProcess (producer_closes p) (consumer_closes p) (output p ++ [text]) None
      | Close h =>
          match lib h (closes p h) with
          | Returns _ => count_close p h None
          | Panics msg => count_close p h (Some (Crashes msg))
          end
      | Exit code =>
          mkProcess (producer_closes p) (consumer_closes p) (output p)
            (Some (Exits code))
      end
  end.

Definition run (lib : CloseLib) (schedule : list Action) (p : Process) : Process :=
  foldl (act lib) p schedule.

(** Every way to interleave the actions of two goroutines. *)
Fixpoint interleavings {A : Type} (l1 : list A) : list A → list (list A) :=
  fix inner (l2 : list A) : list (list A) :=
    match l1, l2 with
    | [], _ => [l2]
    | _, [] => [l1]
    | x :: l1', y :: l2' =>
        map (cons x) (interleavings l1' l2) ++ map (cons y) (inner l2')
    end.

(** ** Vocabulary of the statements *)

(** The process has exited (not crashed) with both handles closed. *)
Definition shut_cleanly (p : Process) : bool :=
  match ended p with
  | Some (Exits _) => closed_handle p TheProducer && closed_handle p TheConsumer
  | _ => false
  end.

Definition closed_at_most_twice (p : Process) : bool :=
  bool_decide (producer_closes p ≤ 2)%nat && bool_decide (consumer_closes p ≤ 2)%nat.

#[global] Instance Handle_eq_dec : EqDecision Handle.
Proof. solve_decision. Defined.

#[global] Instance Action_eq_dec : EqDecision Action.
Proof. solve_decision. Defined.

(** The two processes agree on which handles are closed. *)
Definition same_closed (p q : Process) : bool :=
  bool_decide (closed_handle p TheProducer = closed_handle q TheProducer)
  && bool_decide (closed_handle p TheConsumer = closed_handle q TheConsumer).

(** The event records the return of a call of [verifyServerCert]. *)
Definition is_Verified (e : Event) : bool :=
  match e with
  | Verified _ _ _ => true
  | _ => false
  end.

(** The event records a verification that returned an error or not-ok. *)
Definition failed (e : Event) : bool :=
  match e with
  | Verified _ true None => false
  | Verified _ _ _ => true
  | _ => false
  end.

(** Output and dialling: neither a verification result nor a construction. *)
Definition plain (e : Event) : bool :=
  match e with
  | Stdout _ | Logged _ | Dialed _ _ => true
  | _ => false
  end.

(** Whatever the trace before, the process only appends to it, and what it
    appends satisfies [P]. *)
Definition emits {A : Type} (P : Event → Prop) (m : Proc A) : Prop :=
  ∀ tr, ∃ ext, (m tr).2 = tr ++ ext ∧ Forall P ext.

(** The process did not return: it was ended by [log.Fatal] or a panic. *)
Definition aborted {A : Type} (o : Outcome A) : Prop :=
  match o with
  | Ret _ => False
  | Fatal _ | Panic _ => True
  end.

(** What [brokerAddresses] makes of one entry of the URL list. *)
Definition endpoint_of (W : World) (entry addr : string) : Prop :=
  ∃ u, url_Parse W entry = inl u ∧ addr = url.Host u.

(** The process never panics, whatever the trace before. *)
Definition panic_free {A : Type} (m : Proc A) : Prop :=
  ∀ tr msg, (m tr).1 ≠ Panic msg.

(** The two ways [connectWith] can go: it stops before anything is
    constructed, or the configuration, the endpoints and every verification
    went through and what follows the log line holds no verification. *)
Inductive ConnectCase (W : World) (kc : Client) (config : Config) (tr : Trace) : Prop :=
| StopsEarly o ext :
    connectWith W kc config tr = (o, tr ++ ext) →
    aborted o →
    Forall (λ e, constructs e = false) ext →
    (Forall (λ e, failed e = false) ext ∨ ∃ msg, o = Fatal msg) →
    ConnectCase W kc config tr
| Constructs tlsConfig brokers ext1 ext2 ext3 :
    (∀ t, brokerAddresses W config t = (Ret brokers, t)) →
    (verifyBrokers W tlsConfig (TrustedCert config) brokers (tr ++ ext1)).1 = Ret () →
    Forall (λ e, plain e = true) ext1 →
    Forall (λ e, constructs e = false) ext2 →
    Forall (λ e, failed e = false) ext2 →
    filter (λ e, is_Verified e = true) ext2 = (λ b, Verified b true None) <$> brokers →
    Forall (λ e, is_Verified e = false) ext3 →
    (connectWith W kc config tr).2
    = tr ++ ext1 ++ ext2 ++ [Logged "All broker server certificates are valid!"] ++ ext3 →
    ConnectCase W kc config tr.

(** ** Sample inputs *)

Fixpoint strip_prefix (p s : string) : option string :=
  match p, s with
  | EmptyString, _ => Some s
  | String a p', String b s' => if Ascii.eqb a b then strip_prefix p' s' else None
  | String _ _, EmptyString => None
  end.

(** A stand-in for [url.Parse] on URLs of the scheme [kafka+ssl]. *)
Definition sample_url_Parse (s : string) : url.URL + error :=
  match strip_prefix "kafka+ssl://" s with
  | Some rest => inl (url.mkURL rest)
  | None => inr ("parse " +:+ s +:+ ": unsupported scheme")
  end.

Definition sample_URL : string :=
  "kafka+ssl://a.example:9096,kafka+ssl://b.example:9096,kafka+ssl://c.example:9096".

Definition sample_config (trusted pre : string) : Config :=
  mkConfig sample_URL trusted "CLIENT KEY PEM" "CLIENT CERT PEM" pre
    "heroku-kafka-demo-go".

(** A world in production mode whose trusted root parses only from
    ["ROOT PEM"], and in which the broker at [rogue] presents a certificate
    that does not verify. *)
Definition sample_world (decoded : Config) (rogue : string) : World :=
  {| envdecode_MustDecode := inl decoded;
     os_Getenv := λ _, "production";
     base64_DecodeString := λ s, inl s;
     pem_certificates := λ pem,
       if decide (pem = "ROOT PEM") then [x509.mkCertificate "root"] else [];
     tls_X509KeyPair := λ c k, inl (tls.mkCertificate [c] k);
     url_Parse := sample_url_Parse;
     tls_Dial := λ _ _ addr _,
       inl (tls.mkConnectionState [x509.mkCertificate addr]);
     x509_Verify := λ _ cert _,
       if decide (x509.Raw cert = rogue)
       then Some "x509: certificate signed by unknown authority"
       else None;
     time_Now := λ _, time.mkTime 1 0;
     time_Format := λ _ _, "303001030203905";
     cluster_Validate := λ _, None;
     cluster_NewConsumer := λ _ _ _ _ _, inl 1%nat;
     sarama_Validate := λ _, None;
     sarama_NewAsyncProducer := λ _ _ _, inl 2%nat |}.

Definition sample_tls : tls.Config :=
  tls.mkConfig [tls.mkCertificate ["CLIENT CERT PEM"] "CLIENT KEY PEM"] true
    [x509.mkCertificate "root"].

Definition sample_record : sarama.ConsumerMessage :=
  sarama.mkConsumerMessage "hello" "order_events" 2 57 (time.mkTime 7 0).

(** A [Close] that never fails, however often it is called. *)
Definition lenient_lib : CloseLib := λ _ _, Returns None.

(** A [Close] that panics when the handle has been closed before. *)
Definition strict_lib : CloseLib := λ _ n,
  match n with
  | O => Returns None
  | S _ => Panics "close of closed channel"
  end.

(** The signal handler closes both handles, the message stream ends, the
    deferred calls of [main] run, and the handler exits. *)
Definition handler_then_deferred : list Action :=
  [Println "Closing consumer and producer..."; Close TheProducer;
   Close TheConsumer; Close TheConsumer; Close TheProducer; Exit 1; Exit 0].

(** Both source channels closed, nothing queued. *)
Definition shut_down {A B : Type} : Sources A B :=
  mkSources (mkChan [] true) (mkChan [] true).

(** The sample world in which the second broker is an impostor. *)
Definition rogue_world : World :=
  sample_world (sample_config "ROOT PEM" "") "b.example:9096".

(** The sample world whose trusted-root material is not PEM. *)
Definition garbled_world : World :=
  sample_world (sample_config "NOT A PEM BLOCK" "") "".

(** The sample world, except that handshakes complete without any peer
    certificate. *)
Definition bare_world : World :=
  let W := sample_world (sample_config "ROOT PEM" "") "" in
  {| envdecode_MustDecode := envdecode_MustDecode W;
     os_Getenv := os_Getenv W;
     base64_DecodeString := base64_DecodeString W;
     pem_certificates := pem_certificates W;
     tls_X509KeyPair := tls_X509KeyPair W;
     url_Parse := url_Parse W;
     tls_Dial := λ _ _ _ _, inl (tls.mkConnectionState []);
     x509_Verify := x509_Verify W;
     time_Now := time_Now W;
     time_Format := time_Format W;
     cluster_Validate := cluster_Validate W;
     cluster_NewConsumer := cluster_NewConsumer W;
     sarama_Validate := sarama_Validate W;
     sarama_NewAsyncProducer := sarama_NewAsyncProducer W |}.

(** ** Vocabulary of the further statements *)

(** How often the byte [c] occurs in [s]. *)
Fixpoint count_char (c : ascii) (s : string) : nat :=
  match s with
  | EmptyString => 0%nat
  | String d rest => ((if Ascii.eqb d c then 1 else 0) + count_char c rest)%nat
  end.

(** The dials of a trace, in order: network and address. *)
Definition dials (tr : Trace) : list (string * string) :=
  omap (λ e, match e with
             | Dialed network addr => Some (network, addr)
             | _ => None
             end) tr.

(** The addresses whose verification returned ok without error, in order. *)
Definition verified_addrs (tr : Trace) : list string :=
  omap (λ e, match e with
             | Verified addr true None => Some addr
             | _ => None
             end) tr.

(** The constructor calls of a trace, in order. *)
Definition constructions (tr : Trace) : list Event :=
  filter (λ e, constructs e = true) tr.

(** The three PEM fields of a configuration, in the order [Connect]
    decodes them. *)
Definition pem_fields (c : Config) : list string :=
  [TrustedCert c; ClientCertKey c; ClientCert c].

(** The first line of every run of [Connect]. *)
Definition connecting : Trace := [Stdout "Connecting to Kafka brokers..."].

(** One for a non-nil value, nothing for nil. *)
Definition weight {A : Type} (v : option A) : nat :=
  match v with
  | Some _ => 1%nat
  | None => 0%nat
  end.

(** The non-nil values waiting in a channel. *)
Definition waiting {A : Type} (c : Chan (option A)) : nat :=
  length (omap id (queued c)).

(** A configuration whose second URL entry has no scheme. *)
Definition malformed_config : Config :=
  mkConfig "kafka+ssl://a.example:9096,localhost:9092,kafka+ssl://c.example:9096"
    "ROOT PEM" "CLIENT KEY PEM" "CLIENT CERT PEM" "" "heroku-kafka-demo-go".

(** Console and log output only. *)
Definition silent (e : Event) : bool :=
  match e with
  | Stdout _ | Logged _ => true
  | _ => false
  end.

(** Lines 82 to 85 of [Connect]: the consumer, then the producer, then the
    three fields of the client. *)
Definition constructClients (W : World) (kc : Client) (config : Config)
    (brokerAddrs : list string) (tlsConfig : tls.Config) : Proc Client :=
  consumer ← createKafkaConsumer W config brokerAddrs tlsConfig;
  producer ← createKafkaProducer W config brokerAddrs tlsConfig;
  mret {| Producer := Some producer;
          Consumer := Some consumer;
          config := Some config |}.

(** The line logged between verification and construction. *)
Definition all_valid : Event := Logged "All broker server certificates are valid!".

(** How a run of [Connect] goes: it stops on the local material (the
    environment, base64, the key pair, the URL list) having printed and
    logged only; a verification stops it; or every broker is verified and
    the clients are constructed. *)
Inductive ConnectRun (W : World) (kc : Client) : Prop :=
| StopsLocally o lines :
    Connect W kc [] = (o, connecting ++ lines) →
    aborted o →
    Forall (λ e, silent e = true) lines →
    ConnectRun W kc
| NotVerified config t tlsConfig brokers o lines ext :
    loadConfig W connecting = (Ret config, t) →
    (createTLSConfig W config t).1 = Ret tlsConfig →
    (∀ t', brokerAddresses W config t' = (Ret brokers, t')) →
    Forall (λ e, silent e = true) lines →
    verifyBrokers W tlsConfig (TrustedCert config) brokers (connecting ++ lines)
    = (o, (connecting ++ lines) ++ ext) →
    aborted o →
    (Connect W kc []).2 = (connecting ++ lines) ++ ext →
    aborted (Connect W kc []).1 →
    (∀ msg, o = Fatal msg → (Connect W kc []).1 = Fatal msg) →
    ConnectRun W kc
| AllVerified config t tlsConfig brokers lines ext :
    loadConfig W connecting = (Ret config, t) →
    (createTLSConfig W config t).1 = Ret tlsConfig →
    (∀ t', brokerAddresses W config t' = (Ret brokers, t')) →
    Forall (λ e, silent e = true) lines →
    verifyBrokers W tlsConfig (TrustedCert config) brokers (connecting ++ lines)
    = (Ret (), (connecting ++ lines) ++ ext) →
    Connect W kc []
    = constructClients W kc config brokers tlsConfig
        (((connecting ++ lines) ++ ext) ++ [all_valid]) →
    ConnectRun W kc.

(** A stand-in for base64 decoding: the text after the marker ["b64:"]. *)
Definition sample_base64 (s : string) : string + error :=
  match strip_prefix "b64:" s with
  | Some rest => inl rest
  | None => inr "illegal base64 data at input byte 0"
  end.

(** The sample world outside production, with the environment decoded to
    [decoded] and the PEM fields encoded at rest. *)
Definition staging_world (decoded : Config) : World :=
  let W := sample_world decoded "" in
  {| envdecode_MustDecode := envdecode_MustDecode W;
     os_Getenv := λ _, "staging";
     base64_DecodeString := sample_base64;
     pem_certificates := pem_certificates W;
     tls_X509KeyPair := tls_X509KeyPair W;
     url_Parse := url_Parse W;
     tls_Dial := tls_Dial W;
     x509_Verify := x509_Verify W;
     time_Now := time_Now W;
     time_Format := time_Format W;
     cluster_Validate := cluster_Validate W;
     cluster_NewConsumer := cluster_NewConsumer W;
     sarama_Validate := sarama_Validate W;
     sarama_NewAsyncProducer := sarama_NewAsyncProducer W |}.

(** Encoded at rest, as the README asks. *)
Definition encoded_config : Config :=
  mkConfig sample_URL "b64:ROOT PEM" "b64:CLIENT KEY PEM" "b64:CLIENT CERT PEM"
    "" "heroku-kafka-demo-go".

(** The client key was left unencoded. *)
Definition half_encoded_config : Config :=
  mkConfig sample_URL "b64:ROOT PEM" "CLIENT KEY PEM" "b64:CLIENT CERT PEM"
    "" "heroku-kafka-demo-go".

(** The non-nil values waiting in either source of a loop. *)
Definition owed {A B : Type} (s : Sources (option A) (option B)) : nat :=
  (waiting (first s) + waiting (second s))%nat.

(** How many non-nil values of [ticks] a pair of channels takes in, given
    whether each is closed at the start: a send on a closed channel is not
    taken. *)
Fixpoint accepted {A B : Type} (ticks : list (Tick (option A) (option B)))
    (closed1 closed2 : bool) : nat :=
  match ticks with
  | [] => 0%nat
  | SendFirst (Some _) :: rest =>
      ((if closed1 then 0 else 1) + accepted rest closed1 closed2)%nat
  | SendSecond (Some _) :: rest =>
      ((if closed2 then 0 else 1) + accepted rest closed1 closed2)%nat
  | CloseFirst :: rest => accepted rest true closed2
  | CloseSecond :: rest => accepted rest closed1 true
  | _ :: rest => accepted rest closed1 closed2
  end.

(** The four kinds of line [ShowNotifications] prints in its loop. *)
Definition notification_line (line : string) : Prop :=
  ∃ x,
    line = "Notification Type:  " +:+ x
    ∨ line = "Notification Current:  " +:+ x
    ∨ line = "Successfull delivery to:  " +:+ x
    ∨ line = "Message:  " +:+ x.

(** How often [Close] is called on [h] in a schedule. *)
Definition close_calls (h : Handle) (schedule : list Action) : nat :=
  length (filter (λ a, a = Close h) schedule).

(** The schedule calls [Close] twice on each handle, holds an exit, and
    exits with status 0 or 1 only. *)
Definition two_closes_and_an_exit (schedule : list Action) : bool :=
  bool_decide (close_calls TheProducer schedule = 2%nat)
  && bool_decide (close_calls TheConsumer schedule = 2%nat)
  && existsb (λ a, match a with Exit _ => true | _ => false end) schedule
  && forallb (λ a, match a with
                   | Exit code => bool_decide (code = 0 ∨ code = 1)
                   | _ => true
                   end) schedule.

(** * Part II: the theorems *)

(** A bind runs its first part, then, if that returned, the rest. *)
Lemma bind_run {A B : Type} (m : Proc A) (k : A → Proc B) tr :
  (m ≫= k) tr
  = match m tr with
    | (Ret a, tr') => k a tr'
    | (Fatal msg, tr') => (Fatal msg, tr')
    | (Panic msg, tr') => (Panic msg, tr')
    end.
Proof. reflexivity. Qed.

(** ** Strings *)

Lemma strings_Split_nonempty s sep : strings_Split s sep ≠ [].
Proof.
  destruct s as [|c rest]; simpl; [done|].
  destruct (Ascii.eqb c sep); [done|].
  by destruct (strings_Split rest sep).
Qed.

Lemma strings_Join_pair a b sep : strings_Join [a; b] sep = a +:+ sep +:+ b.
Proof. reflexivity. Qed.

Lemma strings_Join_cons_char c hd tl sep :
  strings_Join (String c hd :: tl) sep = String c (strings_Join (hd :: tl) sep).
Proof. by destruct tl. Qed.

(** Joining the entries with the separator gives the text back. *)
Lemma strings_Join_Split s sep :
  strings_Join (strings_Split s sep) (String sep "") = s.
Proof.
  induction s as [|c rest IH]; simpl; [done|].
  destruct (Ascii.eqb_spec c sep) as [->|Hne].
  - pose proof (strings_Split_nonempty rest sep) as Hne.
    destruct (strings_Split rest sep) as [|hd tl] eqn:E; [done|].
    simpl in *. by rewrite IH.
  - pose proof (strings_Split_nonempty rest sep) as Hne'.
    destruct (strings_Split rest sep) as [|hd tl] eqn:E; [done|].
    by rewrite strings_Join_cons_char, IH.
Qed.

(** No entry contains the separator. *)
Lemma strings_Split_no_sep s sep :
  Forall (λ entry, occurs sep entry = false) (strings_Split s sep).
Proof.
  induction s as [|c rest IH]; simpl.
  - by constructor.
  - destruct (Ascii.eqb c sep) eqn:Ec.
    + by constructor.
    + destruct (strings_Split rest sep) as [|hd tl]; [repeat constructor; simpl; by rewrite Ec|].
      inversion IH; subst. constructor; [|done].
      simpl. by rewrite Ec.
Qed.

Lemma topic_spec kc topicName :
  topic kc topicName = if decide (Prefix kc = "") then "" else Prefix kc +:+ topicName.
Proof.
  unfold topic. destruct (decide (Prefix kc = "")) as [->|Hne]; [done|].
  by rewrite decide_True.
Qed.

Lemma group_spec kc :
  group kc
  = if decide (Prefix kc = "") then ConsumerGroup kc
    else Prefix kc +:+ ConsumerGroup kc.
Proof.
  unfold group. destruct (decide (Prefix kc = "")) as [->|Hne]; [done|].
  by rewrite decide_True.
Qed.

(** ** Names: topic, group and client identifier *)

(** C2 (defect in [topic]): with an empty prefix [group] returns the base
    group name unchanged, but [topic] returns the empty string instead of
    the base name ["order_events"]; with the prefix ["p."] both return the
    prefix followed directly by the base name. *)
Theorem topic_empty_prefix_loses_name :
  topic (sample_config "ROOT PEM" "") "order_events" = ""
  ∧ group (sample_config "ROOT PEM" "") = "heroku-kafka-demo-go"
  ∧ topic (sample_config "ROOT PEM" "p.") "order_events" = "p.order_events"
  ∧ group (sample_config "ROOT PEM" "p.") = "p.heroku-kafka-demo-go".
Proof. repeat split; reflexivity. Qed.

(** C7 (as stated, refuted): with the prefix ["p."] configured the client
    identifier of the consumer does not start with the prefix-qualified
    group name; the group handed to the consumer does. *)
Lemma clientID_ignores_prefix :
  let W := sample_world (sample_config "ROOT PEM" "p.") "" in
  let kc := sample_config "ROOT PEM" "p." in
  let now := time.mkTime 1 0 in
  cluster.ClientID (consumerConfig W kc sample_tls now)
  ≠ group kc +:+ "-" +:+ time_Format W now clientID_layout
  ∧ cluster.ClientID (consumerConfig W kc sample_tls now)
    = "heroku-kafka-demo-go-303001030203905"
  ∧ group kc = "p.heroku-kafka-demo-go".
Proof. cbv zeta. split; [|split]; [|reflexivity..]. vm_compute. discriminate. Qed.

(** [createKafkaConsumer], path by path. *)
Lemma createKafkaConsumer_run W kc brokers tc tr :
  createKafkaConsumer W kc brokers tc tr
  = let config := consumerConfig W kc tc (time_Now W tr) in
    let topics := [topic kc "order_events"] in
    let tr1 := tr ++ [Logged ("Consuming topic " +:+ fmt_strings topics
                              +:+ " on brokers: " +:+ fmt_strings brokers)] in
    match cluster_Validate W config with
    | Some err => (Fatal err, tr1 ++ [Logged err])
    | None =>
        let tr2 := tr1 ++ [NewConsumer brokers (group kc) topics config] in
        match cluster_NewConsumer W tr1 brokers (group kc) topics config with
        | inr err => (Fatal err, tr2 ++ [Logged err])
        | inl consumer => (Ret consumer, tr2)
        end
    end.
Proof.
  unfold createKafkaConsumer. rewrite bind_run. unfold ask at 1.
  rewrite bind_run. unfold log_Println, emit at 1. cbv zeta.
  destruct (cluster_Validate W _); [done|].
  rewrite bind_run. unfold ask at 1. rewrite bind_run. unfold emit at 1.
  by destruct (cluster_NewConsumer W _ _ _ _ _).
Qed.

(** [createKafkaProducer], path by path. *)
Lemma createKafkaProducer_run W kc brokers tc tr :
  createKafkaProducer W kc brokers tc tr
  = let config := producerConfig W kc tc (time_Now W tr) in
    match sarama_Validate W config with
    | Some err => (Fatal err, tr ++ [Logged err])
    | None =>
        let tr1 := tr ++ [NewAsyncProducer brokers config] in
        match sarama_NewAsyncProducer W tr brokers config with
        | inr err => (Fatal err, tr1 ++ [Logged err])
        | inl producer => (Ret producer, tr1)
        end
    end.
Proof.
  unfold createKafkaProducer. rewrite bind_run. unfold ask at 1. cbv zeta.
  destruct (sarama_Validate W _); [done|].
  rewrite bind_run. unfold ask at 1. rewrite bind_run. unfold emit at 1.
  by destruct (sarama_NewAsyncProducer W _ _ _).
Qed.

(** C7 (amended): for every configuration, the client identifier handed to
    the consumer and to the producer constructor is the base consumer-group
    name (never prefix-qualified, while the group of the consumer is), then
    ["-"], then the time of creation as [time.Format] renders it under the
    layout of the source. *)
Theorem clientID_base_group_and_time (W : World) (kc : Config)
    (brokers : list string) (tc : tls.Config) (tr : Trace) :
  let stamp := λ now,
    ConsumerGroup kc +:+ "-" +:+ time_Format W now "20200102150405" in
  (∀ now, cluster.ClientID (consumerConfig W kc tc now) = stamp now)
  ∧ (∀ now, sarama.ClientID (producerConfig W kc tc now) = stamp now)
  ∧ (∀ b g ts cfg,
       NewConsumer b g ts cfg
       ∈ drop (length tr) (createKafkaConsumer W kc brokers tc tr).2 →
       g = group kc ∧ cluster.ClientID cfg = stamp (time_Now W tr))
  ∧ (∀ b cfg,
       NewAsyncProducer b cfg
       ∈ drop (length tr) (createKafkaProducer W kc brokers tc tr).2 →
       sarama.ClientID cfg = stamp (time_Now W tr)).
Proof.
  intros stamp. split; [|split; [|split]].
  - intros now. apply strings_Join_pair.
  - intros now. apply strings_Join_pair.
  - intros b g ts cfg. rewrite createKafkaConsumer_run. cbv zeta.
    destruct (cluster_Validate W _);
      [|destruct (cluster_NewConsumer W _ _ _ _ _)]; simpl;
      rewrite <- ?app_assoc, drop_app_length; simpl; intros Hin;
      repeat (apply elem_of_cons in Hin as [Hin|Hin]; [try done|]);
      try (by apply elem_of_nil in Hin);
      simplify_eq; (split; [done|apply strings_Join_pair]).
  - intros b cfg. rewrite createKafkaProducer_run. cbv zeta.
    destruct (sarama_Validate W _);
      [|destruct (sarama_NewAsyncProducer W _ _ _)]; simpl;
      rewrite <- ?app_assoc, drop_app_length; simpl; intros Hin;
      repeat (apply elem_of_cons in Hin as [Hin|Hin]; [try done|]);
      try (by apply elem_of_nil in Hin);
      simplify_eq; apply strings_Join_pair.
Qed.

(** ** Dispatch *)

Lemma dispatch_spec kc stream :
  dispatch kc stream = (λ m, processMessage m kc) <$> omap id stream.
Proof.
  induction stream as [|[m|] rest IH]; simpl; [done| |done].
  by rewrite IH.
Qed.

(** C5 (as stated, refuted): the message built for a record carries the
    zero timestamp, which is not the clock reading at dispatch. *)
Lemma receivedAt_is_zero :
  let W := sample_world (sample_config "ROOT PEM" "") "" in
  let message := (processMessage sample_record (mkClient None None None)).1 in
  ReceivedAt (Metadata message) = time.zero
  ∧ ReceivedAt (Metadata message) ≠ time_Now W [].
Proof. cbv zeta. split; [reflexivity|]. vm_compute. discriminate. Qed.

(** C5 (amended): the dispatcher starts one handling unit per non-nil
    record, in order; the message each builds copies partition, offset,
    topic and value from the record, and its [receivedAt] is never
    assigned: it is the zero timestamp. *)
Theorem dispatch_copies_record (kc : Client)
    (stream : list (option sarama.ConsumerMessage)) :
  dispatch kc stream = (λ m, processMessage m kc) <$> omap id stream
  ∧ ∀ m : sarama.ConsumerMessage,
      let message := (processMessage m kc).1 in
      Partition message = sarama.Partition m
      ∧ Offset message = sarama.Offset m
      ∧ Topic message = sarama.Topic m
      ∧ Value message = sarama.Value m
      ∧ ReceivedAt (Metadata message) = time.zero.
Proof. split; [apply dispatch_spec|]. intros m. by repeat split. Qed.

(** The record of the specification's scenario: what is reported. *)
Example processMessage_sample :
  (processMessage sample_record (mkClient None None None)).2
  = "Message Received:" +:+ nl +:+ "Topic: order_events" +:+ nl
    +:+ "Partition: 2" +:+ nl +:+ "Offset: 57" +:+ nl.
Proof. vm_compute. reflexivity. Qed.

(** A nil record on the stream is skipped. *)
Example dispatch_skips_nil :
  dispatch (mkClient None None None) [None; Some sample_record; None]
  = [processMessage sample_record (mkClient None None None)].
Proof. reflexivity. Qed.

(** ** The supervision loops *)

Lemma ShowNotifications_body_continues pick s fl s' out :
  ShowNotifications_body pick s = Some (fl, s', out) → fl = Continue.
Proof.
  unfold ShowNotifications_body.
  destruct (select2 pick None None s) as [|[n|] s1|[m|] s1]; congruence.
Qed.

Lemma ShowErrors_body_continues pick s fl s' out :
  ShowErrors_body pick s = Some (fl, s', out) → fl = Continue.
Proof.
  unfold ShowErrors_body.
  destruct (select2 pick None None s) as [|[e|] s1|[e|] s1]; congruence.
Qed.

Section Loops.
Context {A B : Type} (body : bool → Sources A B → Pass A B).
Hypothesis body_continues :
  ∀ pick s fl s' out, body pick s = Some (fl, s', out) → fl = Continue.

Lemma loop_step_running l t :
  status l = Running → status (loop_step body l t) = Running.
Proof.
  intros Hl. unfold loop_step. rewrite Hl.
  destruct t as [v|v| | |pick]; try done.
  destruct (body pick (sources l)) as [[[fl s'] out]|] eqn:E; [|done].
  apply body_continues in E as ->. done.
Qed.

(** A loop whose body never leaves is running after any ticks. *)
Lemma run_loop_running ticks l :
  status l = Running → status (run_loop body ticks l) = Running.
Proof.
  revert l. induction ticks as [|t ticks IH]; intros l Hl; [done|].
  simpl. apply IH. by apply loop_step_running.
Qed.
End Loops.

(** On closed, drained sources a [select] is always ready and yields nil. *)
Lemma select2_shut_down {A B : Type} pick (za : A) (zb : B) :
  select2 pick za zb shut_down
  = if pick then SelectFirst za shut_down else SelectSecond zb shut_down.
Proof. by destruct pick. Qed.

(** C6 (as stated, refuted): with both source channels closed and drained,
    no sequence of ticks makes [ShowNotifications] or [ShowErrors] exit;
    three passes later each is still running and has printed nothing but
    its first line. *)
Lemma loops_outlive_their_channels :
  (¬ ∃ ticks, status (ShowNotifications ticks shut_down) = Exited)
  ∧ (¬ ∃ ticks, status (ShowErrors ticks shut_down) = Exited)
  ∧ ShowNotifications [Iterate true; Iterate false; Iterate true] shut_down
    = mkLoop Running shut_down ["Starting Kafka notifications go routine..."]
  ∧ ShowErrors [Iterate true; Iterate false; Iterate true] shut_down
    = mkLoop Running shut_down ["Starting Kafka Errors go routine..."].
Proof.
  repeat split; try reflexivity.
  - intros [ticks H]. unfold ShowNotifications in H.
    rewrite (run_loop_running _ ShowNotifications_body_continues) in H; done.
  - intros [ticks H]. unfold ShowErrors in H.
    rewrite (run_loop_running _ ShowErrors_body_continues) in H; done.
Qed.

(** C6 (amended): neither supervision loop ever exits, whatever is sent
    and whichever source channels are closed; neither exits while a source
    channel remains open in particular.  Once both sources are closed and
    drained every pass receives nil at once, prints nothing and goes on.
    The loops end only with the process. *)
Theorem supervision_loops_never_exit :
  (∀ ticks s, status (ShowNotifications ticks s) = Running)
  ∧ (∀ ticks s, status (ShowErrors ticks s) = Running)
  ∧ (∀ pick, ShowNotifications_body pick shut_down = Some (Continue, shut_down, []))
  ∧ (∀ pick, ShowErrors_body pick shut_down = Some (Continue, shut_down, [])).
Proof.
  repeat split.
  - intros ticks s. by apply (run_loop_running _ ShowNotifications_body_continues).
  - intros ticks s. by apply (run_loop_running _ ShowErrors_body_continues).
  - by intros [].
  - by intros [].
Qed.

(** ** Shutdown *)

Lemma act_lenient lib p a :
  (∀ h n, ∃ err, lib h n = Returns err) → act lib p a = act lenient_lib p a.
Proof.
  intros Hlib. unfold act. destruct (ended p); [done|].
  destruct a as [text|h|code]; try done.
  destruct (Hlib h (closes p h)) as [err ->]. done.
Qed.

(** The returned errors are dropped: a library that never panics is
    indistinguishable from one that never fails. *)
Lemma run_lenient lib schedule p :
  (∀ h n, ∃ err, lib h n = Returns err) →
  run lib schedule p = run lenient_lib schedule p.
Proof.
  intros Hlib. revert p. induction schedule as [|a rest IH]; intros p; [done|].
  unfold run in *. simpl. rewrite (act_lenient lib) by done. apply IH.
Qed.

(** Nothing in the program stands between a caller and [Close]. *)
Lemma act_Close_reaches_library lib p h :
  ended p = None → closes (act lib p (Close h)) h = S (closes p h).
Proof.
  intros Hp. unfold act. rewrite Hp.
  destruct (lib h (closes p h)); by destruct h.
Qed.

(** C4 (as stated, refuted): when the handler has closed both handles and
    the deferred cleanup then runs, [Close] reaches each handle twice (no
    caller is held back), and under a library whose [Close] panics on a
    closed handle the process crashes. *)
Lemma double_close_unguarded :
  handler_then_deferred ∈ interleavings signal_handler main_return
  ∧ producer_closes (run lenient_lib handler_then_deferred started) = 2%nat
  ∧ consumer_closes (run lenient_lib handler_then_deferred started) = 2%nat
  ∧ ended (run strict_lib handler_then_deferred started)
    = Some (Crashes "close of closed channel").
Proof.
  split; [|by vm_compute].
  apply (bool_decide_unpack _). vm_compute. exact I.
Qed.

(** C4 (amended): the signal handler and the deferred cleanup both call
    [Close] on the same handles; nothing in the program holds the second
    caller back and the returned errors are dropped, so each handle is
    closed up to twice.  Provided the library's [Close] does not panic when
    called again, every interleaving of the two paths ends with the process
    exited, not crashed, and both handles closed, which is the state a
    single run of the handler leaves. *)
Theorem close_twice_relies_on_library (lib : CloseLib) (schedule : list Action) :
  (∀ h n, ∃ err, lib h n = Returns err) →
  schedule ∈ interleavings signal_handler main_return →
  let p := run lib schedule started in
  shut_cleanly p = true
  ∧ closed_at_most_twice p = true
  ∧ same_closed p (run lib signal_handler started) = true
  ∧ (∀ q h, ended q = None → closes (act lib q (Close h)) h = S (closes q h)).
Proof.
  intros Hlib Hin p. subst p. rewrite !(run_lenient lib) by done.
  assert (forallb (λ s,
            shut_cleanly (run lenient_lib s started)
            && closed_at_most_twice (run lenient_lib s started)
            && same_closed (run lenient_lib s started)
                 (run lenient_lib signal_handler started))
          (interleavings signal_handler main_return) = true) as Hall.
  { vm_compute. reflexivity. }
  rewrite forallb_forall in Hall.
  apply list_elem_of_In, Hall in Hin.
  apply andb_prop in Hin as [Hin H3]. apply andb_prop in Hin as [H1 H2].
  repeat split; try done.
  intros q h Hq. by apply act_Close_reaches_library.
Qed.

Lemma close_twice_relies_on_library_witness :
  shut_cleanly (run lenient_lib handler_then_deferred started) = true
  ∧ closed_at_most_twice (run lenient_lib handler_then_deferred started) = true.
Proof.
  pose proof (close_twice_relies_on_library lenient_lib handler_then_deferred) as H.
  cbv zeta in H. destruct H as (H1 & H2 & _).
  - intros h n. exists None. reflexivity.
  - apply (bool_decide_unpack _). vm_compute. exact I.
  - split; [exact H1 | exact H2].
Defined.

(** ** Processes and their traces *)

Section Emits.
Context (P : Event → Prop).

Lemma emits_ret {A : Type} (a : A) : emits P (mret a).
Proof. intros tr. exists []. split; [by rewrite app_nil_r | constructor]. Qed.

Lemma emits_bind {A B : Type} (m : Proc A) (k : A → Proc B) :
  emits P m → (∀ a, emits P (k a)) → emits P (m ≫= k).
Proof.
  intros Hm Hk tr. rewrite bind_run.
  destruct (Hm tr) as (ext1 & E1 & F1).
  destruct (m tr) as [[a|msg|msg] tr1]; simpl in E1; subst tr1.
  - destruct (Hk a (tr ++ ext1)) as (ext2 & E2 & F2).
    exists (ext1 ++ ext2). rewrite E2, app_assoc. split; [done|].
    by apply Forall_app.
  - by exists ext1.
  - by exists ext1.
Qed.

Lemma emits_emit e : P e → emits P (emit e).
Proof. intros He tr. exists [e]. split; [done|]. by repeat constructor. Qed.

Lemma emits_ask {A : Type} (f : Trace → A) : emits P (ask f).
Proof. intros tr. exists []. split; [by rewrite app_nil_r | constructor]. Qed.

Lemma emits_log_Fatal {A : Type} msg : P (Logged msg) → emits P (@log_Fatal A msg).
Proof. intros He tr. exists [Logged msg]. split; [done|]. by repeat constructor. Qed.

Lemma emits_panic {A : Type} msg : emits P (@panic A msg).
Proof. intros tr. exists []. split; [by rewrite app_nil_r | constructor]. Qed.

Lemma emits_index0 {A : Type} (l : list A) : emits P (index0 l).
Proof. unfold index0. destruct (l !! 0%nat); [apply emits_ret | apply emits_panic]. Qed.
End Emits.

Lemma emits_weaken {A : Type} (P Q : Event → Prop) (m : Proc A) :
  (∀ e, P e → Q e) → emits P m → emits Q m.
Proof.
  intros HPQ Hm tr. destruct (Hm tr) as (ext & E & F).
  exists ext. split; [done|]. eapply Forall_impl; eauto.
Qed.

(** Takes a goal [emits P m] apart along the structure of [m]. *)
Ltac emits_step :=
  lazymatch goal with
  | |- emits _ (mret _) => apply emits_ret
  | |- emits _ (_ ≫= _) => apply emits_bind; [|intros ?]
  | |- emits _ (emit _) => apply emits_emit; reflexivity
  | |- emits _ (fmt_Println _) => apply emits_emit; reflexivity
  | |- emits _ (log_Println _) => apply emits_emit; reflexivity
  | |- emits _ (ask _) => apply emits_ask
  | |- emits _ (log_Fatal _) => apply emits_log_Fatal; reflexivity
  | |- emits _ (panic _) => apply emits_panic
  | |- emits _ (index0 _) => apply emits_index0
  | |- emits _ (match ?x with _ => _ end) => destruct x
  end.

Ltac emits_auto := repeat emits_step.

Section KafkaTraces.
Context (W : World).

Lemma decodeBase64_plain s : emits (λ e, plain e = true) (decodeBase64 W s).
Proof. unfold decodeBase64. emits_auto. Qed.

Lemma createTLSConfig_plain kc : emits (λ e, plain e = true) (createTLSConfig W kc).
Proof. unfold createTLSConfig. emits_auto. Qed.

Lemma brokerAddresses_loop_plain urls i addrs :
  emits (λ e, plain e = true) (brokerAddresses_loop W i urls addrs).
Proof.
  revert i addrs. induction urls as [|v rest IH]; intros i addrs; simpl.
  - apply emits_ret.
  - destruct (url_Parse W v); [apply IH | emits_auto].
Qed.

Lemma brokerAddresses_plain kc : emits (λ e, plain e = true) (brokerAddresses W kc).
Proof. apply brokerAddresses_loop_plain. Qed.

Lemma verifyServerCert_plain tc caCert url :
  emits (λ e, plain e = true) (verifyServerCert W tc caCert url).
Proof. unfold verifyServerCert. emits_auto. Qed.

Lemma loadConfig_plain : emits (λ e, plain e = true) (loadConfig W).
Proof.
  unfold loadConfig. emits_auto; auto using decodeBase64_plain.
Qed.

Lemma createKafkaConsumer_not_Verified kc brokers tc :
  emits (λ e, is_Verified e = false) (createKafkaConsumer W kc brokers tc).
Proof. unfold createKafkaConsumer. emits_auto. Qed.

Lemma createKafkaProducer_not_Verified kc brokers tc :
  emits (λ e, is_Verified e = false) (createKafkaProducer W kc brokers tc).
Proof. unfold createKafkaProducer. emits_auto. Qed.
End KafkaTraces.

(** ** Broker endpoints *)

Section BrokerAddresses.
Context (W : World).

Lemma brokerAddresses_loop_returns urls :
  ∀ i addrs hosts tr,
    (i + length urls = length addrs)%nat →
    Forall2 (endpoint_of W) urls hosts →
    brokerAddresses_loop W i urls addrs tr = (Ret (take i addrs ++ hosts), tr).
Proof.
  induction urls as [|v rest IH]; intros i addrs hosts tr Hlen Hall.
  - apply Forall2_nil_inv_l in Hall as ->. simpl in *.
    rewrite app_nil_r, take_ge by lia. done.
  - apply Forall2_cons_inv_l in Hall as (h & hosts' & (u & Hu & ->) & Hall & ->).
    simpl in *. rewrite Hu.
    rewrite (IH (S i) _ hosts') by (rewrite ?length_insert; done || lia).
    rewrite (take_S_r _ _ (url.Host u)) by (apply list_lookup_insert_eq; lia).
    rewrite take_insert_ge by lia. by rewrite <- app_assoc.
Qed.

Lemma brokerAddresses_loop_inv urls :
  ∀ i addrs res tr tr',
    brokerAddresses_loop W i urls addrs tr = (Ret res, tr') →
    tr' = tr ∧ ∃ hosts, Forall2 (endpoint_of W) urls hosts.
Proof.
  induction urls as [|v rest IH]; intros i addrs res tr tr' Hrun; simpl in Hrun.
  - split; [by inversion Hrun|]. exists []. constructor.
  - destruct (url_Parse W v) as [u|err] eqn:Hu; [|done].
    apply IH in Hrun as [-> [hosts Hall]]. split; [done|].
    exists (url.Host u :: hosts). constructor; [|done]. by exists u.
Qed.

(** What [brokerAddresses] returns does not depend on the trace. *)
Lemma brokerAddresses_Ret kc brokers tr tr' :
  brokerAddresses W kc tr = (Ret brokers, tr') →
  tr' = tr
  ∧ Forall2 (endpoint_of W) (strings_Split (URL kc) comma) brokers
  ∧ ∀ t, brokerAddresses W kc t = (Ret brokers, t).
Proof.
  unfold brokerAddresses. intros Hrun.
  destruct (brokerAddresses_loop_inv _ _ _ _ _ _ Hrun) as [-> [hosts Hall]].
  split; [done|].
  assert (∀ t, brokerAddresses_loop W 0 (strings_Split (URL kc) comma)
                 (replicate (length (strings_Split (URL kc) comma)) "") t
               = (Ret hosts, t)) as Hret.
  { intros t. by rewrite (brokerAddresses_loop_returns _ 0 _ hosts)
      by (rewrite ?length_replicate; done). }
  rewrite Hret in Hrun. inversion Hrun; subst. done.
Qed.

Lemma brokerAddresses_nonempty kc brokers tr tr' :
  brokerAddresses W kc tr = (Ret brokers, tr') → brokers ≠ [].
Proof.
  intros Hrun. apply brokerAddresses_Ret in Hrun as (_ & Hall & _).
  intros ->. apply Forall2_length in Hall.
  pose proof (strings_Split_nonempty (URL kc) comma).
  by destruct (strings_Split (URL kc) comma).
Qed.

(** C8: when every comma-separated entry of the URL list parses,
    [brokerAddresses] returns (without logging anything) a list with one
    endpoint per entry, in the order of the entries, each endpoint being
    the [Host] (the [host:port] part) of the URL parsed from its entry;
    the entries are the pieces of the list between the commas. *)
Theorem brokerAddresses_one_endpoint_per_entry (kc : Config) (tr : Trace) :
  let entries := strings_Split (URL kc) comma in
  Forall (λ entry, ∃ u, url_Parse W entry = inl u) entries →
  ∃ addrs,
    brokerAddresses W kc tr = (Ret addrs, tr)
    ∧ length addrs = length entries
    ∧ (∀ i entry, entries !! i = Some entry →
         ∃ u, url_Parse W entry = inl u ∧ addrs !! i = Some (url.Host u))
    ∧ strings_Join entries "," = URL kc
    ∧ Forall (λ entry, occurs comma entry = false) entries.
Proof.
  intros entries Hparse.
  assert (∃ addrs, Forall2 (endpoint_of W) entries addrs) as [addrs Hall].
  { clear -Hparse. induction Hparse as [|entry rest [u Hu] _ [addrs IH]].
    - exists []. constructor.
    - exists (url.Host u :: addrs). constructor; [by exists u | done]. }
  exists addrs. split; [|split; [|split; [|split]]].
  - unfold brokerAddresses. fold entries.
    by rewrite (brokerAddresses_loop_returns _ 0 _ addrs)
      by (rewrite ?length_replicate; done).
  - symmetry. by eapply Forall2_length.
  - intros i entry Hi.
    destruct (Forall2_lookup_l _ _ _ _ _ Hall Hi) as (addr & Ha & u & Hu & ->).
    by exists u.
  - apply (strings_Join_Split (URL kc) comma).
  - apply strings_Split_no_sep.
Qed.
End BrokerAddresses.

Lemma brokerAddresses_one_endpoint_per_entry_witness :
  ∃ addrs,
    brokerAddresses (sample_world (sample_config "ROOT PEM" "") "")
      (sample_config "ROOT PEM" "") [] = (Ret addrs, [])
    ∧ length addrs = 3%nat.
Proof.
  destruct (brokerAddresses_one_endpoint_per_entry
              (sample_world (sample_config "ROOT PEM" "") "")
              (sample_config "ROOT PEM" "") [])
    as (addrs & Hrun & Hlen & _).
  - vm_compute. repeat constructor; eexists; reflexivity.
  - exists addrs. split; [exact Hrun | exact Hlen].
Defined.

Example brokerAddresses_sample :
  brokerAddresses (sample_world (sample_config "ROOT PEM" "") "")
    (sample_config "ROOT PEM" "") []
  = (Ret ["a.example:9096"; "b.example:9096"; "c.example:9096"], []).
Proof. vm_compute. reflexivity. Qed.

(** ** Certificate verification *)

Section VerifyServerCert.
Context (W : World).

(** [verifyServerCert], path by path. *)
Lemma verifyServerCert_run tc caCert url tr :
  verifyServerCert W tc caCert url tr
  = let tr1 := tr ++ [Dialed "tcp" url] in
    match tls_Dial W tr "tcp" url tc with
    | inr err => (Ret (false, Some err), tr1)
    | inl conn =>
        match tls.PeerCertificates conn with
        | [] => (Panic "runtime error: index out of range [0] with length 0", tr1)
        | serverCert :: _ =>
            match pem_certificates W caCert with
            | [] => (Ret (false, Some "Unable to parse Trusted Cert"), tr1)
            | roots =>
                match x509_Verify W tr1 serverCert {| x509.Roots := roots |} with
                | Some err =>
                    (Ret (false, Some err),
                     tr1 ++ [Logged "Unable to verify Server Cert"])
                | None => (Ret (true, None), tr1)
                end
            end
        end
    end.
Proof.
  unfold verifyServerCert. rewrite bind_run. unfold ask at 1.
  rewrite bind_run. unfold emit at 1. cbv zeta.
  destruct (tls_Dial W tr "tcp" url tc) as [conn|err]; [|done].
  rewrite bind_run. unfold index0.
  destruct (tls.PeerCertificates conn) as [|serverCert rest]; [done|].
  simpl. unfold AppendCertsFromPEM. simpl.
  destruct (pem_certificates W caCert) as [|r roots]; [done|].
  simpl. rewrite bind_run. unfold ask.
  destruct (x509_Verify _ _ _ _); done.
Qed.

(** A call returns not-ok exactly when it returns an error. *)
Lemma verifyServerCert_ok_iff_no_error tc caCert url tr ok err tr' :
  verifyServerCert W tc caCert url tr = (Ret (ok, err), tr') →
  (ok = true ∧ err = None) ∨ (ok = false ∧ err ≠ None).
Proof.
  rewrite verifyServerCert_run. cbv zeta. intros H.
  repeat case_match; simplify_eq; auto.
Qed.

(** C3: for every server certificate obtained from a completed handshake
    and every pool [roots] parsed from the trusted-root material,
    [verifyServerCert] returns failure (false, with an error) when chain
    verification of the certificate against [roots] does not succeed, and
    returns success (true, no error) when it succeeds against a pool that
    holds a root. *)
Theorem verifyServerCert_follows_chain_verification
    (tc : tls.Config) (caCert url : string) (tr : Trace)
    (conn : tls.ConnectionState) (serverCert : x509.Certificate)
    (rest : list x509.Certificate) (roots : x509.CertPool) :
  tls_Dial W tr "tcp" url tc = inl conn →
  tls.PeerCertificates conn = serverCert :: rest →
  pem_certificates W caCert = roots →
  let tr1 := tr ++ [Dialed "tcp" url] in
  let chain := x509_Verify W tr1 serverCert {| x509.Roots := roots |} in
  (chain ≠ None →
     ∃ e tr', verifyServerCert W tc caCert url tr = (Ret (false, Some e), tr'))
  ∧ (roots ≠ [] → chain = None →
       verifyServerCert W tc caCert url tr = (Ret (true, None), tr1))
  ∧ (roots ≠ [] → ∀ e, chain = Some e →
       verifyServerCert W tc caCert url tr
       = (Ret (false, Some e), tr1 ++ [Logged "Unable to verify Server Cert"])).
Proof.
  intros Hdial Hpeer Hpool tr1 chain. subst tr1 chain.
  rewrite verifyServerCert_run. cbv zeta. rewrite Hdial, Hpeer, Hpool.
  destruct roots as [|r roots'].
  { split; [by eauto|]. split; by intros []. }
  split; [|split].
  - intros Hchain. destruct (x509_Verify _ _ _ _); [eauto | done].
  - by intros _ ->.
  - by intros _ e ->.
Qed.

(** C10: [verifyServerCert] reads [PeerCertificates[0]] unguarded: when
    the dial succeeds with an empty peer-certificate list the call panics
    (index out of range), and that is the only way it panics; if every
    completed handshake carries a peer certificate it always returns. *)
Theorem verifyServerCert_panics_iff_no_peer_certificate
    (tc : tls.Config) (caCert url : string) (tr : Trace) :
  (∃ msg tr', verifyServerCert W tc caCert url tr = (Panic msg, tr'))
  ↔ (∃ conn, tls_Dial W tr "tcp" url tc = inl conn
             ∧ tls.PeerCertificates conn = []).
Proof.
  rewrite verifyServerCert_run. cbv zeta. split.
  - intros (msg & tr' & H).
    destruct (tls_Dial W tr "tcp" url tc) as [conn|err]; [|done].
    exists conn. split; [done|].
    destruct (tls.PeerCertificates conn); [done|].
    repeat case_match; done.
  - intros (conn & -> & ->). eauto.
Qed.
End VerifyServerCert.

Lemma verifyServerCert_panics_iff_no_peer_certificate_witness :
  ∃ msg tr',
    verifyServerCert bare_world sample_tls "ROOT PEM" "a.example:9096" []
    = (Panic msg, tr').
Proof.
  apply (proj2 (verifyServerCert_panics_iff_no_peer_certificate
                  bare_world sample_tls "ROOT PEM" "a.example:9096" [])).
  exists (tls.mkConnectionState []). split; reflexivity.
Defined.

(** Without a peer certificate the first verification panics, and start-up
    ends there. *)
Example Connect_bare_run :
  Connect bare_world (mkClient None None None) []
  = (Panic "runtime error: index out of range [0] with length 0",
     [Stdout "Connecting to Kafka brokers..."; Dialed "tcp" "a.example:9096"]).
Proof. vm_compute. reflexivity. Qed.

Lemma verifyServerCert_follows_chain_verification_witness :
  let W := sample_world (sample_config "ROOT PEM" "") "b.example:9096" in
  verifyServerCert W sample_tls "ROOT PEM" "a.example:9096" []
  = (Ret (true, None), [Dialed "tcp" "a.example:9096"])
  ∧ verifyServerCert W sample_tls "ROOT PEM" "b.example:9096" []
    = (Ret (false, Some "x509: certificate signed by unknown authority"),
       [Dialed "tcp" "b.example:9096"; Logged "Unable to verify Server Cert"]).
Proof.
  cbv zeta. split.
  - refine (proj1 (proj2 (verifyServerCert_follows_chain_verification
              (sample_world (sample_config "ROOT PEM" "") "b.example:9096")
              sample_tls "ROOT PEM" "a.example:9096" []
              (tls.mkConnectionState [x509.mkCertificate "a.example:9096"])
              (x509.mkCertificate "a.example:9096") []
              [x509.mkCertificate "root"] _ _ _)) _ _);
      (reflexivity || discriminate).
  - refine (proj2 (proj2 (verifyServerCert_follows_chain_verification
              (sample_world (sample_config "ROOT PEM" "") "b.example:9096")
              sample_tls "ROOT PEM" "b.example:9096" []
              (tls.mkConnectionState [x509.mkCertificate "b.example:9096"])
              (x509.mkCertificate "b.example:9096") []
              [x509.mkCertificate "root"] _ _ _)) _ _ _);
      (reflexivity || discriminate).
Defined.

(** ** Start-up: verification before construction *)

Lemma plain_not_constructs e : plain e = true → constructs e = false.
Proof. by destruct e. Qed.

Lemma plain_not_Verified e : plain e = true → is_Verified e = false.
Proof. by destruct e. Qed.

Lemma not_Verified_not_failed e : is_Verified e = false → failed e = false.
Proof. by destruct e. Qed.

Lemma filter_Verified_none l :
  Forall (λ e, is_Verified e = false) l → filter (λ e, is_Verified e = true) l = [].
Proof.
  induction 1 as [|e l He _ IH]; [done|].
  rewrite filter_cons_False by congruence. done.
Qed.

Lemma split_past (P : Event → bool) L R pre e post :
  L ++ R = pre ++ e :: post →
  Forall (λ x, P x = false) L → P e = true →
  ∃ mid, pre = L ++ mid ∧ R = mid ++ e :: post.
Proof.
  revert pre. induction L as [|x L IH]; intros pre Heq HL He.
  - by exists pre.
  - inversion HL as [|? ? Hx HL']; subst.
    destruct pre as [|p pre]; simpl in Heq; simplify_eq; [congruence|].
    destruct (IH pre) as (mid & -> & ->); [done..|]. by exists mid.
Qed.

Lemma plain_all_not_constructs l :
  Forall (λ e, plain e = true) l → Forall (λ e, constructs e = false) l.
Proof. intros H. eapply Forall_impl; [exact H | apply plain_not_constructs]. Qed.

Lemma plain_all_not_Verified l :
  Forall (λ e, plain e = true) l → Forall (λ e, is_Verified e = false) l.
Proof. intros H. eapply Forall_impl; [exact H | apply plain_not_Verified]. Qed.

Lemma not_Verified_all_not_failed l :
  Forall (λ e, is_Verified e = false) l → Forall (λ e, failed e = false) l.
Proof. intros H. eapply Forall_impl; [exact H | apply not_Verified_not_failed]. Qed.


Lemma panic_free_ret {A : Type} (a : A) : panic_free (mret a).
Proof. by intros tr msg. Qed.

Lemma panic_free_bind {A B : Type} (m : Proc A) (k : A → Proc B) :
  panic_free m → (∀ a, panic_free (k a)) → panic_free (m ≫= k).
Proof.
  intros Hm Hk tr msg. rewrite bind_run. specialize (Hm tr).
  destruct (m tr) as [[a|msg'|msg'] tr1]; simpl in *; [apply Hk|done|].
  by destruct (Hm msg').
Qed.

Lemma panic_free_emit e : panic_free (emit e).
Proof. by intros tr msg. Qed.

Lemma panic_free_ask {A : Type} (f : Trace → A) : panic_free (ask f).
Proof. by intros tr msg. Qed.

Lemma panic_free_log_Fatal {A : Type} msg : panic_free (@log_Fatal A msg).
Proof. by intros tr msg'. Qed.

Ltac panic_free_step :=
  lazymatch goal with
  | |- panic_free (mret _) => apply panic_free_ret
  | |- panic_free (_ ≫= _) => apply panic_free_bind; [|intros ?]
  | |- panic_free (emit _) => apply panic_free_emit
  | |- panic_free (fmt_Println _) => apply panic_free_emit
  | |- panic_free (log_Println _) => apply panic_free_emit
  | |- panic_free (ask _) => apply panic_free_ask
  | |- panic_free (log_Fatal _) => apply panic_free_log_Fatal
  | |- panic_free (match ?x with _ => _ end) => destruct x
  end.

Lemma no_constructs_no_split tr pre e post :
  Forall (λ e, constructs e = false) tr →
  tr = pre ++ e :: post → constructs e = true → False.
Proof.
  intros Hall -> He. rewrite Forall_app, Forall_cons in Hall.
  destruct Hall as (_ & He' & _). congruence.
Qed.

Lemma no_failed_no_member tr e :
  Forall (λ e, failed e = false) tr → e ∈ tr → failed e = true → False.
Proof.
  intros Hall He Hf. rewrite Forall_forall in Hall. apply Hall in He. congruence.
Qed.

Section ConnectTraces.
Context (W : World).

Lemma verifyBrokers_spec tc caCert brokers :
  ∀ tr, ∃ ext,
    (verifyBrokers W tc caCert brokers tr).2 = tr ++ ext
    ∧ Forall (λ e, constructs e = false) ext
    ∧ match (verifyBrokers W tc caCert brokers tr).1 with
      | Ret _ =>
          filter (λ e, is_Verified e = true) ext
          = (λ b, Verified b true None) <$> brokers
          ∧ Forall (λ e, failed e = false) ext
      | Fatal _ => True
      | Panic _ => Forall (λ e, failed e = false) ext
      end.
Proof.
  induction brokers as [|b rest IH]; intros tr.
  - exists []. simpl. rewrite app_nil_r. repeat split; constructor.
  - simpl. rewrite bind_run.
    destruct (verifyServerCert_plain W tc caCert b tr) as (ext1 & E1 & F1).
    destruct (verifyServerCert W tc caCert b tr) as [[[ok err]|msg|msg] tr1] eqn:Hv;
      simpl in E1; subst tr1.
    + rewrite bind_run. unfold emit at 1.
      destruct (verifyServerCert_ok_iff_no_error _ _ _ _ _ _ _ _ Hv)
        as [[-> ->]|[-> Herr]].
      * simpl. destruct (IH ((tr ++ ext1) ++ [Verified b true None]))
          as (ext2 & E2 & F2 & H2).
        exists (ext1 ++ [Verified b true None] ++ ext2).
        rewrite E2. split; [by rewrite <- !app_assoc|]. split.
        { apply Forall_app. split; [eapply Forall_impl; eauto using plain_not_constructs|].
          by constructor. }
        destruct (verifyBrokers W tc caCert rest _).1 as [[]|msg|msg].
        -- destruct H2 as [H2 H3]. split.
           ++ rewrite filter_app, filter_Verified_none
                by (eapply Forall_impl; eauto using plain_not_Verified).
              simpl. rewrite filter_cons_True by done. by rewrite H2.
           ++ apply Forall_app. split.
              { eapply Forall_impl; eauto.
                intros e He. by apply not_Verified_not_failed, plain_not_Verified. }
              by constructor.
        -- done.
        -- apply Forall_app. split.
           { eapply Forall_impl; eauto.
             intros e He. by apply not_Verified_not_failed, plain_not_Verified. }
           by constructor.
      * destruct err as [e|]; [|done]. simpl.
        exists (ext1 ++ [Verified b false (Some e); Logged ("Get Server Cert Error: " +:+ e)]).
        split; [by rewrite <- !app_assoc|]. split; [|done].
        apply Forall_app. split; [eapply Forall_impl; eauto using plain_not_constructs|].
        by repeat constructor.
    + exists ext1. simpl. split; [done|]. split; [|done].
      eapply Forall_impl; eauto using plain_not_constructs.
    + exists ext1. simpl. split; [done|]. split.
      * eapply Forall_impl; eauto using plain_not_constructs.
      * eapply Forall_impl; eauto.
        intros e He. by apply not_Verified_not_failed, plain_not_Verified.
Qed.


Lemma plain_harmless l :
  Forall (λ e, plain e = true) l →
  Forall (λ e, constructs e = false) l ∧ Forall (λ e, failed e = false) l.
Proof.
  auto using plain_all_not_constructs, plain_all_not_Verified,
    not_Verified_all_not_failed.
Qed.

Lemma connectWith_cases kc config tr : ConnectCase W kc config tr.
Proof.
  destruct (createTLSConfig_plain W config tr) as (ext1 & E1 & F1).
  destruct (plain_harmless _ F1) as [C1 V1].
  destruct (createTLSConfig W config tr) as [[tlsConfig|msg|msg] tr1] eqn:Htls;
    simpl in E1; subst tr1.
  2: { apply (StopsEarly W _ _ _ (Fatal msg) ext1); [|done|done|by left].
       unfold connectWith. by rewrite bind_run, Htls. }
  2: { apply (StopsEarly W _ _ _ (Panic msg) ext1); [|done|done|by left].
       unfold connectWith. by rewrite bind_run, Htls. }
  destruct (brokerAddresses_plain W config (tr ++ ext1)) as (extb & Eb & Fb).
  destruct (plain_harmless _ Fb) as [Cb Vb].
  destruct (brokerAddresses W config (tr ++ ext1)) as [[brokers|msg|msg] tr2] eqn:Hb;
    simpl in Eb; subst tr2.
  2: { apply (StopsEarly W _ _ _ (Fatal msg) (ext1 ++ extb));
         [|done|by apply Forall_app|left; by apply Forall_app].
       unfold connectWith. by rewrite bind_run, Htls, bind_run, Hb, app_assoc. }
  2: { apply (StopsEarly W _ _ _ (Panic msg) (ext1 ++ extb));
         [|done|by apply Forall_app|left; by apply Forall_app].
       unfold connectWith. by rewrite bind_run, Htls, bind_run, Hb, app_assoc. }
  destruct (brokerAddresses_Ret _ _ _ _ _ Hb) as (Etr & Hall & Hindep).
  rewrite Etr in Hb. clear extb Etr Fb Cb Vb.
  destruct (verifyBrokers_spec tlsConfig (TrustedCert config) brokers (tr ++ ext1))
    as (ext2 & E2 & F2 & H2).
  destruct (verifyBrokers W tlsConfig (TrustedCert config) brokers (tr ++ ext1))
    as [[[]|msg|msg] tr3] eqn:Hv; simpl in E2, H2; subst tr3.
  2: { apply (StopsEarly W _ _ _ (Fatal msg) (ext1 ++ ext2));
         [|done|by apply Forall_app|right; by eauto].
       unfold connectWith.
       by rewrite bind_run, Htls, bind_run, Hb, bind_run, Hv, app_assoc. }
  2: { apply (StopsEarly W _ _ _ (Panic msg) (ext1 ++ ext2));
         [|done|by apply Forall_app|left; by apply Forall_app].
       unfold connectWith.
       by rewrite bind_run, Htls, bind_run, Hb, bind_run, Hv, app_assoc. }
  destruct H2 as [H2 H3].
  assert (emits (λ e, is_Verified e = false)
            (createKafkaConsumer W config brokers tlsConfig ≫= λ consumer,
             createKafkaProducer W config brokers tlsConfig ≫= λ producer,
             mret {| Producer := Some producer; Consumer := Some consumer;
                     config := Some config |})) as Hm.
  { apply emits_bind; [apply createKafkaConsumer_not_Verified|]. intros c.
    apply emits_bind; [apply createKafkaProducer_not_Verified|]. intros p.
    apply emits_ret. }
  destruct (Hm (((tr ++ ext1) ++ ext2)
                ++ [Logged "All broker server certificates are valid!"]))
    as (ext3 & E3 & F3).
  apply (Constructs W _ _ _ tlsConfig brokers ext1 ext2 ext3); try done.
  - by rewrite Hv.
  - unfold connectWith. rewrite bind_run, Htls, bind_run, Hb, bind_run, Hv.
    rewrite bind_run. unfold log_Println, emit at 1.
    rewrite E3. by rewrite <- !app_assoc.
Qed.

Lemma createTLSConfig_panic_free kc : panic_free (createTLSConfig W kc).
Proof. unfold createTLSConfig. repeat panic_free_step. Qed.

Lemma brokerAddresses_panic_free kc : panic_free (brokerAddresses W kc).
Proof.
  unfold brokerAddresses. generalize 0%nat.
  generalize (replicate (length (strings_Split (URL kc) comma)) "").
  induction (strings_Split (URL kc) comma) as [|v rest IH]; intros addrs i; simpl.
  - apply panic_free_ret.
  - destruct (url_Parse W v); [apply IH | apply panic_free_log_Fatal].
Qed.

Lemma createKafkaConsumer_panic_free kc brokers tc :
  panic_free (createKafkaConsumer W kc brokers tc).
Proof. unfold createKafkaConsumer. repeat panic_free_step. Qed.

Lemma createKafkaProducer_panic_free kc brokers tc :
  panic_free (createKafkaProducer W kc brokers tc).
Proof. unfold createKafkaProducer. repeat panic_free_step. Qed.

Section PeerCertificatePresent.
Hypothesis handshake_has_certificate :
  ∀ tr addr tc conn,
    tls_Dial W tr "tcp" addr tc = inl conn → tls.PeerCertificates conn ≠ [].

Lemma verifyServerCert_panic_free tc caCert url :
  panic_free (verifyServerCert W tc caCert url).
Proof.
  intros tr msg. rewrite verifyServerCert_run. cbv zeta.
  destruct (tls_Dial W tr "tcp" url tc) as [conn|err] eqn:Hdial; [|done].
  apply handshake_has_certificate in Hdial.
  destruct (tls.PeerCertificates conn); [done|].
  repeat case_match; done.
Qed.

Lemma verifyBrokers_panic_free tc caCert brokers :
  panic_free (verifyBrokers W tc caCert brokers).
Proof.
  induction brokers as [|b rest IH]; simpl; [apply panic_free_ret|].
  apply panic_free_bind; [apply verifyServerCert_panic_free|].
  intros [ok err]. repeat panic_free_step. apply IH.
Qed.

Lemma connectWith_panic_free kc config : panic_free (connectWith W kc config).
Proof.
  unfold connectWith.
  apply panic_free_bind; [apply createTLSConfig_panic_free|]. intros tlsConfig.
  apply panic_free_bind; [apply brokerAddresses_panic_free|]. intros brokers.
  apply panic_free_bind; [apply verifyBrokers_panic_free|]. intros _.
  apply panic_free_bind; [apply panic_free_emit|]. intros _.
  apply panic_free_bind; [apply createKafkaConsumer_panic_free|]. intros c.
  apply panic_free_bind; [apply createKafkaProducer_panic_free|]. intros p.
  apply panic_free_ret.
Qed.
End PeerCertificatePresent.

Lemma verifyBrokers_unparsable_aborts tc caCert brokers tr :
  pem_certificates W caCert = [] → brokers ≠ [] →
  aborted (verifyBrokers W tc caCert brokers tr).1.
Proof.
  intros Hpem Hne. destruct brokers as [|b rest]; [done|]. simpl.
  rewrite bind_run, verifyServerCert_run. cbv zeta. rewrite Hpem.
  destruct (tls_Dial W tr "tcp" b tc) as [conn|err]; [|done].
  by destruct (tls.PeerCertificates conn).
Qed.

Lemma Connect_run kc :
  Connect W kc []
  = match loadConfig W [Stdout "Connecting to Kafka brokers..."] with
    | (Ret config, tr1) => connectWith W kc config tr1
    | (Fatal msg, tr1) => (Fatal msg, tr1)
    | (Panic msg, tr1) => (Panic msg, tr1)
    end.
Proof. reflexivity. Qed.

(** C1: in every run of [Connect], whatever precedes the construction of
    the consumer or of the producer holds, for the endpoint list computed
    from the loaded configuration, exactly one verification per endpoint,
    in order, each returned ok without error; and if the verification of
    any endpoint returned an error or not-ok, the run ends in [log.Fatal]
    and no consumer or producer is constructed at all. *)
Theorem Connect_verifies_every_broker_first (kc : Client) :
  let greeting := [Stdout "Connecting to Kafka brokers..."] in
  let o := (Connect W kc []).1 in
  let tr := (Connect W kc []).2 in
  (∀ pre e post, tr = pre ++ e :: post → constructs e = true →
     ∃ config brokers t,
       loadConfig W greeting = (Ret config, t)
       ∧ (∀ t', brokerAddresses W config t' = (Ret brokers, t'))
       ∧ filter (λ e, is_Verified e = true) pre
         = (λ b, Verified b true None) <$> brokers)
  ∧ (∀ e, e ∈ tr → failed e = true →
       (∃ msg, o = Fatal msg) ∧ Forall (λ e, constructs e = false) tr).
Proof.
  intros greeting o tr. subst o tr. rewrite Connect_run. fold greeting.
  assert (Forall (λ e, plain e = true) greeting) as Fg by (by repeat constructor).
  destruct (loadConfig_plain W greeting) as (ext0 & E0 & F0).
  assert (Forall (λ e, plain e = true) (greeting ++ ext0)) as F00
    by (by apply Forall_app).
  destruct (plain_harmless _ F00) as [C0 V0].
  destruct (loadConfig W greeting) as [[config|msg|msg] tr1] eqn:Hload;
    simpl in E0; subst tr1; cbv beta iota;
    change (Stdout "Connecting to Kafka brokers..." :: ext0)
      with (greeting ++ ext0) in *.
  2,3: simpl; split;
    [ intros pre e post Htr He;
      by destruct (no_constructs_no_split _ _ _ _ C0 Htr He)
    | intros e He Hf; by destruct (no_failed_no_member _ _ V0 He Hf) ].
  destruct (connectWith_cases kc config (greeting ++ ext0))
    as [o ext Hrun Ho Cx Vx
       |tlsConfig brokers ext1 ext2 ext3 Hb Hv F1 C2 V2 H2 F3 Hrun].
  - rewrite Hrun. simpl.
    assert (Forall (λ e, constructs e = false) ((greeting ++ ext0) ++ ext)) as Call
      by (by apply Forall_app).
    split.
    + intros pre e post Htr He.
      by destruct (no_constructs_no_split _ _ _ _ Call Htr He).
    + intros e He Hf. split; [|done].
      destruct Vx as [Vx|Vx]; [|done].
      assert (Forall (λ e, failed e = false) ((greeting ++ ext0) ++ ext)) as Vall
        by (by apply Forall_app).
      by destruct (no_failed_no_member _ _ Vall He Hf).
  - rewrite Hrun. destruct (plain_harmless _ F1) as [C1 V1].
    split.
    + intros pre e post Htr He.
      exists config, brokers, (greeting ++ ext0). split; [done|]. split; [done|].
      rewrite !app_assoc in Htr.
      apply (split_past constructs) in Htr as (mid & -> & Hmid); [| |done].
      2: { rewrite !Forall_app, Forall_singleton.
           repeat split; auto using plain_all_not_constructs. }
      assert (Forall (λ e, is_Verified e = false) mid) as Fmid.
      { rewrite Hmid in F3. by apply Forall_app in F3 as [? _]. }
      rewrite !filter_app.
      rewrite (filter_Verified_none greeting) by (by apply plain_all_not_Verified).
      rewrite (filter_Verified_none ext0) by (by apply plain_all_not_Verified).
      rewrite (filter_Verified_none ext1) by (by apply plain_all_not_Verified).
      rewrite (filter_Verified_none mid) by done.
      rewrite (filter_Verified_none [Logged "All broker server certificates are valid!"])
        by (by apply Forall_singleton).
      rewrite H2. simpl. by rewrite !app_nil_r.
    + intros e He Hf. exfalso.
      assert (Forall (λ e, failed e = false)
                ((greeting ++ ext0) ++ ext1 ++ ext2
                 ++ [Logged "All broker server certificates are valid!"] ++ ext3)) as Vall.
      { rewrite !Forall_app, Forall_singleton. repeat split;
          auto using not_Verified_all_not_failed, plain_all_not_Verified. }
      by destruct (no_failed_no_member _ _ Vall He Hf).
Qed.

(** C9: when the loaded trusted-root material yields no certificate,
    [Connect] does not return and constructs neither consumer nor
    producer: [createTLSConfig] only logs the parse failure and goes on
    with an empty pool, and the run is then ended on the verification
    path, by [log.Fatal] whenever completed handshakes carry a peer
    certificate. *)
Theorem unparsable_trusted_root_aborts_startup
    (kc : Client) (config : Config) (t : Trace) :
  loadConfig W [Stdout "Connecting to Kafka brokers..."] = (Ret config, t) →
  pem_certificates W (TrustedCert config) = [] →
  let o := (Connect W kc []).1 in
  let tr := (Connect W kc []).2 in
  aborted o
  ∧ Forall (λ e, constructs e = false) tr
  ∧ ((∀ h addr tc conn,
        tls_Dial W h "tcp" addr tc = inl conn → tls.PeerCertificates conn ≠ []) →
     ∃ msg, o = Fatal msg)
  ∧ (∀ tr0 cert,
       tls_X509KeyPair W (ClientCert config) (ClientCertKey config) = inl cert →
       createTLSConfig W config tr0
       = (Ret {| tls.Certificates := [cert];
                 tls.InsecureSkipVerify := true;
                 tls.RootCAs := [] |},
          tr0 ++ [Logged ("Unable to parse Root Cert: " +:+ TrustedCert config)])).
Proof.
  intros Hload Hpem o tr. subst o tr. rewrite Connect_run, Hload.
  assert (Forall (λ e, constructs e = false) t) as Ct.
  { destruct (loadConfig_plain W [Stdout "Connecting to Kafka brokers..."])
      as (ext0 & E0 & F0).
    rewrite Hload in E0. simpl in E0. subst t.
    constructor; [done|]. by apply plain_all_not_constructs. }
  assert (aborted (connectWith W kc config t).1
          ∧ Forall (λ e, constructs e = false) (connectWith W kc config t).2)
    as [Ho Hc].
  { destruct (connectWith_cases kc config t)
      as [o ext Hrun Ho Cx Vx|tlsConfig brokers ext1 ext2 ext3 Hb Hv _ _ _ _ _ _].
    - rewrite Hrun. simpl. split; [done|]. by apply Forall_app.
    - exfalso.
      pose proof (verifyBrokers_unparsable_aborts tlsConfig (TrustedCert config)
                    brokers (t ++ ext1) Hpem) as Hab.
      rewrite Hv in Hab. apply Hab.
      eapply brokerAddresses_nonempty. apply (Hb []). }
  split; [done|]. split; [done|]. split.
  - intros Hpeer.
    pose proof (connectWith_panic_free Hpeer kc config t) as Hpf.
    destruct (connectWith W kc config t).1 as [c|msg|msg]; [done|by eauto|].
    by destruct (Hpf msg).
  - intros tr0 cert Hkey. unfold createTLSConfig, AppendCertsFromPEM.
    rewrite Hpem, Hkey. reflexivity.
Qed.
End ConnectTraces.


Lemma Connect_verifies_every_broker_first_witness :
  (∃ msg, (Connect rogue_world (mkClient None None None) []).1 = Fatal msg)
  ∧ Forall (λ e, constructs e = false)
      (Connect rogue_world (mkClient None None None) []).2.
Proof.
  apply (proj2 (Connect_verifies_every_broker_first rogue_world
                  (mkClient None None None))
           (Verified "b.example:9096" false
              (Some "x509: certificate signed by unknown authority"))).
  - vm_compute. repeat constructor.
  - reflexivity.
Defined.

Lemma unparsable_trusted_root_aborts_startup_witness :
  aborted (Connect garbled_world (mkClient None None None) []).1
  ∧ Forall (λ e, constructs e = false)
      (Connect garbled_world (mkClient None None None) []).2.
Proof.
  destruct (unparsable_trusted_root_aborts_startup garbled_world
              (mkClient None None None) (sample_config "NOT A PEM BLOCK" "")
              [Stdout "Connecting to Kafka brokers..."])
    as (H1 & H2 & _).
  - vm_compute. reflexivity.
  - vm_compute. reflexivity.
  - split; [exact H1 | exact H2].
Defined.

(** The scenario of the specification: the second of three brokers fails
    verification; the third is never dialled and nothing is constructed. *)
Example Connect_rogue_run :
  Connect rogue_world (mkClient None None None) []
  = (Fatal "Get Server Cert Error: x509: certificate signed by unknown authority",
     [Stdout "Connecting to Kafka brokers...";
      Dialed "tcp" "a.example:9096";
      Verified "a.example:9096" true None;
      Dialed "tcp" "b.example:9096";
      Logged "Unable to verify Server Cert";
      Verified "b.example:9096" false
        (Some "x509: certificate signed by unknown authority");
      Logged "Get Server Cert Error: x509: certificate signed by unknown authority"]).
Proof. vm_compute. reflexivity. Qed.

(** With unparsable trusted-root material the first verification fails. *)
Example Connect_garbled_run :
  Connect garbled_world (mkClient None None None) []
  = (Fatal "Get Server Cert Error: Unable to parse Trusted Cert",
     [Stdout "Connecting to Kafka brokers...";
      Logged "Unable to parse Root Cert: NOT A PEM BLOCK";
      Dialed "tcp" "a.example:9096";
      Verified "a.example:9096" false (Some "Unable to parse Trusted Cert");
      Logged "Get Server Cert Error: Unable to parse Trusted Cert"]).
Proof. vm_compute. reflexivity. Qed.

(** With three honest brokers both clients are constructed, after three
    verifications. *)
Example Connect_honest_run :
  let r := Connect (sample_world (sample_config "ROOT PEM" "") "")
             (mkClient None None None) [] in
  r.1 = Ret (mkClient (Some 2%nat) (Some 1%nat) (Some (sample_config "ROOT PEM" "")))
  ∧ filter (λ e, is_Verified e = true) r.2
    = [Verified "a.example:9096" true None;
       Verified "b.example:9096" true None;
       Verified "c.example:9096" true None]
  ∧ length (filter (λ e, constructs e = true) r.2) = 2%nat.
Proof. vm_compute. repeat split. Qed.

(** * Further properties of the code *)

(** ** Broker endpoints: malformed entries and counting *)

Lemma strings_Split_length s sep :
  length (strings_Split s sep) = S (count_char sep s).
Proof.
  induction s as [|c rest IH]; simpl; [done|].
  destruct (Ascii.eqb c sep); simpl; [by rewrite IH|].
  destruct (strings_Split rest sep) as [|hd tl]; simpl in *; lia.
Qed.

Section MoreBrokerAddresses.
Context (W : World).

Lemma brokerAddresses_loop_malformed good :
  ∀ i addrs bad rest err tr,
    Forall (λ entry, ∃ u, url_Parse W entry = inl u) good →
    url_Parse W bad = inr err →
    brokerAddresses_loop W i (good ++ bad :: rest) addrs tr
    = (Fatal err, tr ++ [Logged err]).
Proof.
  induction good as [|v good IH]; intros i addrs bad rest err tr Hgood Hbad; simpl.
  - by rewrite Hbad.
  - inversion Hgood as [|? ? [u Hu] Hgood']; subst. rewrite Hu. by apply IH.
Qed.

(** X1: when an entry of the URL list does not parse and the entries before
    it do, [brokerAddresses] ends in [log.Fatal] with the parse error of
    that entry, having logged that error and nothing else: no partial list
    is returned and the entries after it are not looked at. *)
Theorem brokerAddresses_first_malformed_entry_is_fatal
    (kc : Config) (tr : Trace) (good : list string) (bad : string)
    (rest : list string) (err : error) :
  strings_Split (URL kc) comma = good ++ bad :: rest →
  Forall (λ entry, ∃ u, url_Parse W entry = inl u) good →
  url_Parse W bad = inr err →
  brokerAddresses W kc tr = (Fatal err, tr ++ [Logged err]).
Proof.
  intros Hsplit Hgood Hbad. unfold brokerAddresses. rewrite Hsplit.
  by apply brokerAddresses_loop_malformed.
Qed.

(** X2: a list returned by [brokerAddresses] has one endpoint more than the
    URL text has commas (so it is never empty: an empty text and a trailing
    comma each make an entry of their own, which has to parse), and nothing
    was logged on the way. *)
Theorem brokerAddresses_count (kc : Config) (tr tr' : Trace) (addrs : list string) :
  brokerAddresses W kc tr = (Ret addrs, tr') →
  length addrs = S (count_char comma (URL kc)) ∧ tr' = tr.
Proof.
  intros Hrun. apply brokerAddresses_Ret in Hrun as (-> & Hall & _).
  split; [|done]. apply Forall2_length in Hall.
  by rewrite <- Hall, strings_Split_length.
Qed.
End MoreBrokerAddresses.

Lemma brokerAddresses_first_malformed_entry_is_fatal_witness :
  brokerAddresses (sample_world malformed_config "") malformed_config []
  = (Fatal "parse localhost:9092: unsupported scheme",
     [Logged "parse localhost:9092: unsupported scheme"]).
Proof.
  apply (brokerAddresses_first_malformed_entry_is_fatal
           (sample_world malformed_config "") malformed_config []
           ["kafka+ssl://a.example:9096"] "localhost:9092"
           ["kafka+ssl://c.example:9096"]).
  - vm_compute. reflexivity.
  - vm_compute. repeat constructor. eexists. reflexivity.
  - vm_compute. reflexivity.
Defined.

Lemma brokerAddresses_count_witness :
  length ["a.example:9096"; "b.example:9096"; "c.example:9096"]
  = S (count_char comma sample_URL)
  ∧ ([] : Trace) = [].
Proof.
  apply (brokerAddresses_count
           (sample_world (sample_config "ROOT PEM" "") "")
           (sample_config "ROOT PEM" "") [] []
           ["a.example:9096"; "b.example:9096"; "c.example:9096"]).
  vm_compute. reflexivity.
Defined.

(** ** The anatomy of a run of [Connect] *)

Lemma silent_plain e : silent e = true → plain e = true.
Proof. by destruct e. Qed.

Lemma dials_app tr1 tr2 : dials (tr1 ++ tr2) = dials tr1 ++ dials tr2.
Proof. apply omap_app. Qed.

Lemma verified_addrs_app tr1 tr2 :
  verified_addrs (tr1 ++ tr2) = verified_addrs tr1 ++ verified_addrs tr2.
Proof. apply omap_app. Qed.

Lemma constructions_app tr1 tr2 :
  constructions (tr1 ++ tr2) = constructions tr1 ++ constructions tr2.
Proof. apply filter_app. Qed.

Lemma silent_quiet lines :
  Forall (λ e, silent e = true) lines →
  dials lines = [] ∧ verified_addrs lines = [] ∧ constructions lines = [].
Proof.
  induction 1 as [|e lines He _ (IH1 & IH2 & IH3)]; [done|].
  unfold dials, verified_addrs, constructions in *.
  destruct e; try done; simpl; rewrite ?IH1, ?IH2; (split; [done|split; [done|]]);
    by rewrite filter_cons_False.
Qed.

Section Anatomy.
Context (W : World).

Lemma decodeBase64_silent s : emits (λ e, silent e = true) (decodeBase64 W s).
Proof. unfold decodeBase64. emits_auto. Qed.

Lemma loadConfig_silent : emits (λ e, silent e = true) (loadConfig W).
Proof. unfold loadConfig. emits_auto; auto using decodeBase64_silent. Qed.

Lemma createTLSConfig_silent kc : emits (λ e, silent e = true) (createTLSConfig W kc).
Proof. unfold createTLSConfig. emits_auto. Qed.

Lemma brokerAddresses_silent kc : emits (λ e, silent e = true) (brokerAddresses W kc).
Proof.
  unfold brokerAddresses. generalize 0%nat.
  generalize (replicate (length (strings_Split (URL kc) comma)) "").
  induction (strings_Split (URL kc) comma) as [|v rest IH]; intros addrs i; simpl.
  - apply emits_ret.
  - destruct (url_Parse W v); [apply IH | emits_auto].
Qed.

(** [createTLSConfig], path by path. *)
Lemma createTLSConfig_run kc tr :
  createTLSConfig W kc tr
  = let certs := pem_certificates W (TrustedCert kc) in
    let tr1 :=
      match certs with
      | [] => tr ++ [Logged ("Unable to parse Root Cert: " +:+ TrustedCert kc)]
      | _ :: _ => tr
      end in
    match tls_X509KeyPair W (ClientCert kc) (ClientCertKey kc) with
    | inr err => (Fatal err, tr1 ++ [Logged err])
    | inl cert =>
        (Ret {| tls.Certificates := [cert];
                tls.InsecureSkipVerify := true;
                tls.RootCAs := certs |}, tr1)
    end.
Proof.
  unfold createTLSConfig, AppendCertsFromPEM. simpl.
  destruct (pem_certificates W (TrustedCert kc)) as [|c certs]; simpl;
    rewrite bind_run; unfold log_Println, emit; simpl;
    by destruct (tls_X509KeyPair W _ _).
Qed.

Lemma createTLSConfig_Ret kc tr tlsConfig :
  (createTLSConfig W kc tr).1 = Ret tlsConfig →
  ∃ cert,
    tls_X509KeyPair W (ClientCert kc) (ClientCertKey kc) = inl cert
    ∧ tlsConfig = {| tls.Certificates := [cert];
                     tls.InsecureSkipVerify := true;
                     tls.RootCAs := pem_certificates W (TrustedCert kc) |}.
Proof.
  rewrite createTLSConfig_run. cbv zeta.
  destruct (tls_X509KeyPair W _ _) as [cert|err]; simpl; [|done].
  intros [= <-]. by exists cert.
Qed.

(** [connectWith], phase by phase. *)
Lemma connectWith_run kc config tr :
  connectWith W kc config tr
  = match createTLSConfig W config tr with
    | (Ret tlsConfig, tr1) =>
        match brokerAddresses W config tr1 with
        | (Ret brokers, tr2) =>
            match verifyBrokers W tlsConfig (TrustedCert config) brokers tr2 with
            | (Ret _, tr3) =>
                constructClients W kc config brokers tlsConfig (tr3 ++ [all_valid])
            | (Fatal msg, tr3) => (Fatal msg, tr3)
            | (Panic msg, tr3) => (Panic msg, tr3)
            end
        | (Fatal msg, tr2) => (Fatal msg, tr2)
        | (Panic msg, tr2) => (Panic msg, tr2)
        end
    | (Fatal msg, tr1) => (Fatal msg, tr1)
    | (Panic msg, tr1) => (Panic msg, tr1)
    end.
Proof.
  unfold connectWith. rewrite bind_run.
  destruct (createTLSConfig W config tr) as [[tlsConfig|msg|msg] tr1]; [|done..].
  rewrite bind_run.
  destruct (brokerAddresses W config tr1) as [[brokers|msg|msg] tr2]; [|done..].
  rewrite bind_run.
  by destruct (verifyBrokers W tlsConfig (TrustedCert config) brokers tr2)
    as [[[]|msg|msg] tr3].
Qed.

Lemma Connect_anatomy kc : ConnectRun W kc.
Proof.
  destruct (loadConfig_silent connecting) as (l0 & E0 & F0).
  destruct (loadConfig W connecting) as [[config|msg|msg] t0] eqn:Hload;
    cbn [snd] in E0; subst t0.
  2: { apply (StopsLocally W kc (Fatal msg) l0); [|done..].
       rewrite Connect_run. fold connecting. by rewrite Hload. }
  2: { apply (StopsLocally W kc (Panic msg) l0); [|done..].
       rewrite Connect_run. fold connecting. by rewrite Hload. }
  assert (Connect W kc [] = connectWith W kc config (connecting ++ l0)) as HC.
  { rewrite Connect_run. fold connecting. by rewrite Hload. }
  rewrite connectWith_run in HC.
  destruct (createTLSConfig_silent config (connecting ++ l0)) as (l1 & E1 & F1).
  destruct (createTLSConfig W config (connecting ++ l0))
    as [[tlsConfig|msg|msg] t1] eqn:Htls; cbn [snd] in E1; subst t1;
    cbv beta iota in HC.
  2: { apply (StopsLocally W kc (Fatal msg) (l0 ++ l1));
         [by rewrite HC, app_assoc|done|by apply Forall_app]. }
  2: { apply (StopsLocally W kc (Panic msg) (l0 ++ l1));
         [by rewrite HC, app_assoc|done|by apply Forall_app]. }
  destruct (brokerAddresses_silent config ((connecting ++ l0) ++ l1)) as (l2 & E2 & F2).
  destruct (brokerAddresses W config ((connecting ++ l0) ++ l1))
    as [[brokers|msg|msg] t2] eqn:Hb; cbn [snd] in E2; subst t2;
    cbv beta iota in HC.
  2: { apply (StopsLocally W kc (Fatal msg) ((l0 ++ l1) ++ l2));
         [by rewrite HC, <- !app_assoc|done|by rewrite !Forall_app]. }
  2: { apply (StopsLocally W kc (Panic msg) ((l0 ++ l1) ++ l2));
         [by rewrite HC, <- !app_assoc|done|by rewrite !Forall_app]. }
  destruct (brokerAddresses_Ret _ _ _ _ _ Hb) as (Etr & _ & Hindep).
  rewrite Etr in HC. clear l2 Hb F2 Etr.
  assert (Forall (λ e, silent e = true) (l0 ++ l1)) as F01 by (by apply Forall_app).
  assert ((createTLSConfig W config (connecting ++ l0)).1 = Ret tlsConfig) as Htls'
    by (by rewrite Htls).
  rewrite <- (app_assoc connecting l0 l1) in HC.
  destruct (verifyBrokers_spec W tlsConfig (TrustedCert config) brokers
              (connecting ++ l0 ++ l1)) as (ext & E & _).
  destruct (verifyBrokers W tlsConfig (TrustedCert config) brokers
              (connecting ++ l0 ++ l1)) as [[[]|msg|msg] t3] eqn:Hv;
    cbn [snd] in E; subst t3; cbv beta iota in HC.
  - by apply (AllVerified W kc config (connecting ++ l0) tlsConfig brokers
                (l0 ++ l1) ext).
  - apply (NotVerified W kc config (connecting ++ l0) tlsConfig brokers
             (Fatal msg) (l0 ++ l1) ext); try done.
    + by rewrite HC.
    + by rewrite HC.
    + intros msg' [= <-]. by rewrite HC.
  - apply (NotVerified W kc config (connecting ++ l0) tlsConfig brokers
             (Panic msg) (l0 ++ l1) ext); try done.
    + by rewrite HC.
    + by rewrite HC.
Qed.

(** A call of [verifyServerCert] dials its endpoint once, over tcp, and
    records neither a verification nor a construction. *)
Lemma verifyServerCert_dials_once tc caCert url tr :
  ∃ ext,
    (verifyServerCert W tc caCert url tr).2 = tr ++ ext
    ∧ dials ext = [("tcp", url)]
    ∧ verified_addrs ext = []
    ∧ constructions ext = [].
Proof.
  rewrite verifyServerCert_run. cbv zeta.
  repeat case_match; simpl; rewrite <- ?app_assoc; eexists; (split; [reflexivity|done]).
Qed.

(** The verification loop: on return every broker was dialled and verified,
    in order; when it stops, the brokers before the one it stops at were
    verified, that one was dialled, and the rest were not touched. *)
Lemma verifyBrokers_anatomy tc caCert brokers :
  ∀ tr, ∃ ext,
    (verifyBrokers W tc caCert brokers tr).2 = tr ++ ext
    ∧ constructions ext = []
    ∧ match (verifyBrokers W tc caCert brokers tr).1 with
      | Ret _ =>
          dials ext = pair "tcp" <$> brokers ∧ verified_addrs ext = brokers
      | Fatal msg =>
          ∃ good b rest e pre,
            brokers = good ++ b :: rest
            ∧ dials ext = pair "tcp" <$> (good ++ [b])
            ∧ verified_addrs ext = good
            ∧ msg = "Get Server Cert Error: " +:+ e
            ∧ ext = pre ++ [Verified b false (Some e); Logged msg]
      | Panic _ =>
          ∃ good b rest,
            brokers = good ++ b :: rest
            ∧ dials ext = pair "tcp" <$> (good ++ [b])
            ∧ verified_addrs ext = good
      end.
Proof.
  induction brokers as [|b rest IH]; intros tr.
  - exists []. simpl. by rewrite app_nil_r.
  - simpl. rewrite bind_run.
    destruct (verifyServerCert_dials_once tc caCert b tr) as (ext1 & E1 & D1 & V1 & C1).
    destruct (verifyServerCert W tc caCert b tr) as [[[ok err]|msg|msg] tr1] eqn:Hv;
      cbn [snd] in E1; subst tr1.
    + rewrite bind_run. unfold emit at 1.
      destruct (verifyServerCert_ok_iff_no_error _ _ _ _ _ _ _ _ Hv)
        as [[-> ->]|[-> Herr]].
      * cbn [negb]. cbv beta iota.
        destruct (IH ((tr ++ ext1) ++ [Verified b true None]))
          as (ext2 & E2 & C2 & H2).
        exists (ext1 ++ [Verified b true None] ++ ext2).
        rewrite E2. split; [by rewrite <- !app_assoc|].
        split; [by rewrite !constructions_app, C1, C2|].
        rewrite !dials_app, !verified_addrs_app, D1, V1. simpl.
        destruct (verifyBrokers W tc caCert rest _).1 as [[]|msg|msg].
        -- destruct H2 as [H2 H3]. by rewrite H2, H3.
        -- destruct H2 as (good & b' & rest' & e & pre & Hb & Hd & Hg & Hm & He).
           exists (b :: good), b', rest', e,
             (ext1 ++ [Verified b true None] ++ pre).
           rewrite Hb, Hd, Hg, He. repeat split; try done.
           by rewrite <- !app_assoc.
        -- destruct H2 as (good & b' & rest' & Hb & Hd & Hg).
           exists (b :: good), b', rest'. by rewrite Hb, Hd, Hg.
      * destruct err as [e|]; [|done]. cbv beta iota. unfold log_Fatal. cbn [fst snd].
        exists (ext1 ++ [Verified b false (Some e);
                         Logged ("Get Server Cert Error: " +:+ e)]).
        split; [by rewrite <- !app_assoc|].
        split; [by rewrite constructions_app, C1|].
        exists [], b, rest, e, ext1.
        rewrite dials_app, verified_addrs_app, D1, V1. done.
    + exfalso. revert Hv. rewrite verifyServerCert_run. cbv zeta.
      repeat case_match; done.
    + exists ext1. split; [done|]. split; [done|].
      by exists [], b, rest.
Qed.

(** [constructClients], path by path. *)
Lemma constructClients_run kc config brokers tc tr :
  constructClients W kc config brokers tc tr
  = let topics := [topic config "order_events"] in
    let tr1 := tr ++ [Logged ("Consuming topic " +:+ fmt_strings topics
                              +:+ " on brokers: " +:+ fmt_strings brokers)] in
    let cfgC := consumerConfig W config tc (time_Now W tr) in
    let newC := NewConsumer brokers (group config) topics cfgC in
    let tr2 := tr1 ++ [newC] in
    let cfgP := producerConfig W config tc (time_Now W tr2) in
    let newP := NewAsyncProducer brokers cfgP in
    match cluster_Validate W cfgC with
    | Some err => (Fatal err, tr1 ++ [Logged err])
    | None =>
        match cluster_NewConsumer W tr1 brokers (group config) topics cfgC with
        | inr err => (Fatal err, tr1 ++ [newC; Logged err])
        | inl consumer =>
            match sarama_Validate W cfgP with
            | Some err => (Fatal err, tr1 ++ [newC; Logged err])
            | None =>
                match sarama_NewAsyncProducer W tr2 brokers cfgP with
                | inr err => (Fatal err, tr1 ++ [newC; newP; Logged err])
                | inl producer =>
                    (Ret {| Producer := Some producer;
                            Consumer := Some consumer;
                            config := Some config |},
                     tr1 ++ [newC; newP])
                end
            end
        end
    end.
Proof.
  unfold constructClients. rewrite bind_run, createKafkaConsumer_run. cbv zeta.
  destruct (cluster_Validate W _); [done|].
  destruct (cluster_NewConsumer W _ _ _ _ _); [|by rewrite <- app_assoc].
  rewrite bind_run, createKafkaProducer_run. cbv zeta.
  destruct (sarama_Validate W _); [by rewrite <- app_assoc|].
  destruct (sarama_NewAsyncProducer W _ _ _); by rewrite <- !app_assoc.
Qed.

(** What [constructClients] adds to the trace: no dial, no verification,
    and the constructor calls [consumer] or [consumer; producer] or none. *)
Lemma constructClients_anatomy kc config brokers tc tr :
  ∃ build,
    (constructClients W kc config brokers tc tr).2 = tr ++ build
    ∧ dials build = []
    ∧ verified_addrs build = []
    ∧ ∃ now1 now2,
        let newC := NewConsumer brokers (group config) [topic config "order_events"]
                      (consumerConfig W config tc now1) in
        let newP := NewAsyncProducer brokers (producerConfig W config tc now2) in
        let o := (constructClients W kc config brokers tc tr).1 in
        (constructions build = [] ∧ aborted o)
        ∨ (constructions build = [newC] ∧ aborted o)
        ∨ (constructions build = [newC; newP]
           ∧ (aborted o
              ∨ ∃ consumer producer,
                  o = Ret {| Producer := Some producer;
                             Consumer := Some consumer;
                             config := Some config |})).
Proof.
  rewrite constructClients_run. cbv zeta.
  set (tr1 := tr ++ [Logged _]).
  set (now1 := time_Now W tr).
  set (now2 := time_Now W (tr1 ++ _)).
  repeat case_match; cbn [fst snd]; subst tr1; rewrite <- ?app_assoc;
    eexists; (split; [reflexivity|]); (split; [done|]); (split; [done|]);
    exists now1, now2; cbv zeta;
    first [ left; split; [reflexivity|done]
          | right; left; split; [reflexivity|done]
          | right; right; split; [reflexivity|];
            first [by left | right; eauto] ].
Qed.


(** X7: in every run of [Connect] the constructor calls are none, the
    consumer alone, or the consumer followed by the producer, at most one
    of each.  [Connect] returns only in the last case, and then with a
    client whose producer, consumer and configuration are all set, the
    configuration being the loaded one. *)
Theorem Connect_constructs_consumer_then_producer (kc : Client) :
  let r := Connect W kc [] in
  (constructions r.2 = [] ∧ aborted r.1)
  ∨ (∃ b g ts c, constructions r.2 = [NewConsumer b g ts c] ∧ aborted r.1)
  ∨ (∃ b g ts c b' c',
       constructions r.2 = [NewConsumer b g ts c; NewAsyncProducer b' c']
       ∧ (aborted r.1
          ∨ ∃ consumer producer config t,
              loadConfig W connecting = (Ret config, t)
              ∧ r.1 = Ret {| Producer := Some producer;
                             Consumer := Some consumer;
                             config := Some config |})).
Proof.
  intros r. subst r.
  destruct (Connect_anatomy kc)
    as [o lines HC Ho Fl
       |config t tlsConfig brokers o lines ext Hload Htls Hb Fl Hv Ho HC2 HC1 _
       |config t tlsConfig brokers lines ext Hload Htls Hb Fl Hv HC].
  - left. rewrite HC. cbn [fst snd]. split; [|done].
    rewrite constructions_app. by destruct (silent_quiet _ Fl) as (_ & _ & ->).
  - left. split; [|done]. rewrite HC2, !constructions_app.
    destruct (silent_quiet _ Fl) as (_ & _ & ->). simpl.
    destruct (verifyBrokers_anatomy tlsConfig (TrustedCert config) brokers
                (connecting ++ lines)) as (ext' & E' & C' & _).
    rewrite Hv in E'. cbn [snd] in E'. apply app_inv_head in E'. by subst ext'.
  - rewrite HC.
    destruct (constructClients_anatomy kc config brokers tlsConfig
                (((connecting ++ lines) ++ ext) ++ [all_valid]))
      as (build & E & _ & _ & now1 & now2 & Hcases).
    rewrite E, !constructions_app.
    destruct (silent_quiet _ Fl) as (_ & _ & ->).
    destruct (verifyBrokers_anatomy tlsConfig (TrustedCert config) brokers
                (connecting ++ lines)) as (ext' & E' & C' & _).
    rewrite Hv in E'. cbn [snd] in E'. apply app_inv_head in E'. subst ext'.
    rewrite C'. cbn [app]. cbv zeta in Hcases.
    destruct Hcases as [[-> Ho]|[[-> Ho]|[-> Ho]]].
    + by left.
    + right. left. eauto 10.
    + right. right. do 6 eexists. split; [reflexivity|].
      destruct Ho as [Ho|(consumer & producer & ->)]; [by left|right; eauto 10].
Qed.

(** X8: every constructor call of a run of [Connect] is handed as brokers
    exactly the endpoints verified in that run, which are the configured
    endpoints, and a configuration built on the TLS configuration of
    [createTLSConfig]: the parsed client key pair, [InsecureSkipVerify]
    set, and as roots the pool parsed from the trusted-root material, which
    is not empty.  The consumer is given the prefix-qualified group and the
    one topic. *)
Theorem Connect_constructs_against_verified_endpoints (kc : Client) (e : Event) :
  e ∈ (Connect W kc []).2 →
  constructs e = true →
  ∃ config t cert,
    loadConfig W connecting = (Ret config, t)
    ∧ tls_X509KeyPair W (ClientCert config) (ClientCertKey config) = inl cert
    ∧ pem_certificates W (TrustedCert config) ≠ []
    ∧ let brokers := verified_addrs (Connect W kc []).2 in
      let tlsConfig :=
        {| tls.Certificates := [cert];
           tls.InsecureSkipVerify := true;
           tls.RootCAs := pem_certificates W (TrustedCert config) |} in
      (∀ t', brokerAddresses W config t' = (Ret brokers, t'))
      ∧ ((∃ now, e = NewConsumer brokers (group config)
                       [topic config "order_events"]
                       (consumerConfig W config tlsConfig now))
         ∨ (∃ now, e = NewAsyncProducer brokers
                         (producerConfig W config tlsConfig now))).
Proof.
  intros He Hc.
  assert (e ∈ constructions (Connect W kc []).2) as Hin
    by (by apply list_elem_of_filter).
  clear He.
  destruct (Connect_anatomy kc)
    as [o lines HC Ho Fl
       |config t tlsConfig brokers o lines ext Hload Htls Hb Fl Hv Ho HC2 HC1 _
       |config t tlsConfig brokers lines ext Hload Htls Hb Fl Hv HC].
  - exfalso. rewrite HC in Hin. cbn [snd] in Hin.
    rewrite constructions_app in Hin.
    destruct (silent_quiet _ Fl) as (_ & _ & Hq). rewrite Hq in Hin.
    by apply elem_of_nil in Hin.
  - exfalso. rewrite HC2, !constructions_app in Hin.
    destruct (silent_quiet _ Fl) as (_ & _ & Hq). rewrite Hq in Hin.
    destruct (verifyBrokers_anatomy tlsConfig (TrustedCert config) brokers
                (connecting ++ lines)) as (ext' & E' & C' & _).
    rewrite Hv in E'. cbn [snd] in E'. apply app_inv_head in E'. subst ext'.
    rewrite C' in Hin. by apply elem_of_nil in Hin.
  - destruct (createTLSConfig_Ret _ _ _ Htls) as (cert & Hkey & Htc).
    destruct (verifyBrokers_anatomy tlsConfig (TrustedCert config) brokers
                (connecting ++ lines)) as (ext' & E' & C' & H').
    rewrite Hv in E', H'. cbn [fst snd] in E', H'.
    apply app_inv_head in E'. subst ext'. destruct H' as [_ Hva].
    destruct (constructClients_anatomy kc config brokers tlsConfig
                (((connecting ++ lines) ++ ext) ++ [all_valid]))
      as (build & E & _ & Vb & now1 & now2 & Hcases).
    destruct (silent_quiet _ Fl) as (_ & Vq & Cq).
    assert (verified_addrs (Connect W kc []).2 = brokers) as Hbrokers.
    { rewrite HC, E, !verified_addrs_app, Vq, Hva, Vb. cbn. by rewrite !app_nil_r. }
    exists config, t, cert. split; [done|]. split; [done|]. split.
    { intros Hpem.
      pose proof (verifyBrokers_unparsable_aborts W tlsConfig (TrustedCert config)
                    brokers (connecting ++ lines) Hpem) as Hab.
      rewrite Hv in Hab. apply Hab.
      eapply brokerAddresses_nonempty. apply (Hb []). }
    cbv zeta. rewrite Hbrokers, <- Htc. split; [done|].
    rewrite HC, E, !constructions_app, Cq, C' in Hin. cbn [app] in Hin.
    cbv zeta in Hcases.
    destruct Hcases as [[Hcs _]|[[Hcs _]|[Hcs _]]]; rewrite Hcs in Hin.
    + by apply elem_of_nil in Hin.
    + apply list_elem_of_singleton in Hin as ->. left. by exists now1.
    + apply elem_of_cons in Hin as [->|Hin]; [left; by exists now1|].
      apply list_elem_of_singleton in Hin as ->. right. by exists now2.
Qed.

(** X6: when the verification loop of [Connect] ends in [log.Fatal], it
    stopped at the first broker whose verification failed: the brokers
    before it were verified, it is the last one dialled, and the message is
    ["Get Server Cert Error: "] followed by the error.  The message is never
    the one of the not-ok branch, which cannot be reached. *)
Theorem verifyBrokers_stops_at_first_failure
    (tc : tls.Config) (caCert : string) (brokers : list string) (tr : Trace)
    (msg : string) :
  (verifyBrokers W tc caCert brokers tr).1 = Fatal msg →
  ∃ good b rest e,
    brokers = good ++ b :: rest
    ∧ msg = "Get Server Cert Error: " +:+ e
    ∧ (∀ b', msg ≠ "Broker " +:+ b' +:+ " has invalid certificate!")
    ∧ let ext := drop (length tr) (verifyBrokers W tc caCert brokers tr).2 in
      verified_addrs ext = good
      ∧ dials ext = pair "tcp" <$> (good ++ [b])
      ∧ Verified b false (Some e) ∈ ext.
Proof.
  intros Hfatal.
  destruct (verifyBrokers_anatomy tc caCert brokers tr) as (ext & E & _ & H).
  rewrite Hfatal in H.
  destruct H as (good & b & rest & e & pre & Hb & Hd & Hg & Hm & He).
  exists good, b, rest, e. split; [done|]. split; [done|]. split.
  { intros b'. rewrite Hm. simpl. discriminate. }
  cbv zeta. rewrite E, drop_app_length. split; [done|]. split; [done|].
  rewrite He. apply elem_of_app. right. by left.
Qed.

(** X9: whenever [verifyServerCert] returns, it returns ok exactly when it
    returns no error, it has dialled its endpoint once over tcp (the
    trusted-root material is parsed only after the handshake), and with
    unparsable trusted-root material it does not return ok. *)
Theorem verifyServerCert_result_is_consistent
    (tc : tls.Config) (caCert url : string) (tr tr' : Trace)
    (ok : bool) (err : option error) :
  verifyServerCert W tc caCert url tr = (Ret (ok, err), tr') →
  (ok = true ↔ err = None)
  ∧ dials (drop (length tr) tr') = [("tcp", url)]
  ∧ (pem_certificates W caCert = [] → ok = false).
Proof.
  intros Hrun. split; [|split].
  - destruct (verifyServerCert_ok_iff_no_error _ _ _ _ _ _ _ _ Hrun)
      as [[-> ->]|[-> Herr]]; [done|]. split; [done|]. by intros ->.
  - destruct (verifyServerCert_dials_once tc caCert url tr) as (ext & E & D & _).
    rewrite Hrun in E. cbn [snd] in E. subst tr'. by rewrite drop_app_length.
  - intros Hpem. revert Hrun. rewrite verifyServerCert_run. cbv zeta.
    rewrite Hpem. repeat case_match; by intros [= <- _ _].
Qed.

(** X3: the configuration [Connect] loads is the record decoded from the
    environment with URL, prefix and consumer group untouched; in
    production it is that record as it is, elsewhere its three PEM fields
    are the base64 decodings of the record's.  Loading prints and logs
    nothing. *)
Theorem loadConfig_decodes_only_the_PEM_fields (tr tr' : Trace) (config : Config) :
  loadConfig W tr = (Ret config, tr') →
  tr' = tr
  ∧ ∃ c,
      envdecode_MustDecode W = inl c
      ∧ URL config = URL c
      ∧ Prefix config = Prefix c
      ∧ ConsumerGroup config = ConsumerGroup c
      ∧ if decide (os_Getenv W "ENVIRONMENT" = "production")
        then config = c
        else base64_DecodeString W <$> pem_fields c = inl <$> pem_fields config.
Proof.
  unfold loadConfig. rewrite bind_run.
  destruct (envdecode_MustDecode W) as [c|msg]; [|done].
  cbv beta iota. unfold mret at 1, Proc_ret at 1. cbv beta iota.
  destruct (decide (os_Getenv W "ENVIRONMENT" ≠ "production")) as [Hne|Heq].
  - rewrite !bind_run. unfold decodeBase64.
    destruct (base64_DecodeString W (TrustedCert c)) as [t|?] eqn:Ht; [|done].
    cbv beta iota. unfold mret at 1, Proc_ret at 1. cbv beta iota.
    rewrite !bind_run.
    destruct (base64_DecodeString W (ClientCertKey c)) as [k|?] eqn:Hk; [|done].
    cbv beta iota. unfold mret at 1, Proc_ret at 1. cbv beta iota.
    rewrite !bind_run.
    destruct (base64_DecodeString W (ClientCert c)) as [cc|?] eqn:Hc; [|done].
    intros [= <- <-]. split; [done|]. exists c. repeat split.
    rewrite decide_False by done. unfold pem_fields. simpl. by rewrite Ht, Hk, Hc.
  - intros [= <- <-]. split; [done|]. exists c. repeat split.
    rewrite decide_True; [done|]. by destruct (decide (os_Getenv W "ENVIRONMENT" = "production")).
Qed.

(** X4: outside production, if any of the three PEM fields of the
    environment is not valid base64, [Connect] ends in [log.Fatal] with
    ["Cannot parse base64"] right after its first line: nothing is parsed,
    dialled or constructed. *)
Theorem Connect_malformed_base64_is_fatal (kc : Client) (c : Config) :
  envdecode_MustDecode W = inl c →
  os_Getenv W "ENVIRONMENT" ≠ "production" →
  Exists (λ s, ∃ err, base64_DecodeString W s = inr err) (pem_fields c) →
  Connect W kc []
  = (Fatal "Cannot parse base64", connecting ++ [Logged "Cannot parse base64"]).
Proof.
  intros Henv Hne Hbad. rewrite Connect_run. fold connecting.
  assert (loadConfig W connecting
          = (Fatal "Cannot parse base64", connecting ++ [Logged "Cannot parse base64"]))
    as ->; [|done].
  unfold loadConfig. rewrite bind_run, Henv. cbv beta iota.
  unfold mret at 1, Proc_ret at 1. cbv beta iota.
  rewrite decide_True by done. unfold decodeBase64.
  unfold pem_fields in Hbad. rewrite !Exists_cons, Exists_nil in Hbad.
  rewrite bind_run.
  destruct (base64_DecodeString W (TrustedCert c)) as [t|?] eqn:Ht; [|done].
  cbv beta iota. unfold mret at 1, Proc_ret at 1. cbv beta iota. rewrite bind_run.
  destruct (base64_DecodeString W (ClientCertKey c)) as [k|?] eqn:Hk; [|done].
  cbv beta iota. unfold mret at 1, Proc_ret at 1. cbv beta iota. rewrite bind_run.
  destruct (base64_DecodeString W (ClientCert c)) as [cc|?] eqn:Hc; [|done].
  exfalso. destruct Hbad as [[? ?]|[[? ?]|[[? ?]|[]]]]; congruence.
Qed.
End Anatomy.

(** ** The supervision loops: what is reported *)

Lemma recv_accounts {A : Type} (c c' : Chan (option A)) (v : option A) :
  recv None c = Receives v c' →
  closed c' = closed c
  ∧ waiting c = (weight v + waiting c')%nat.
Proof.
  unfold recv, waiting. destruct c as [[|x q] cl]; simpl.
  - destruct cl; [|done]. by intros [= <- <-].
  - intros [= <- <-]. simpl. by destruct x.
Qed.

Lemma select2_accounts {A B : Type} pick (s s' : Sources (option A) (option B)) :
  (∀ v, select2 pick None None s = SelectFirst v s' →
     closed (first s') = closed (first s)
     ∧ closed (second s') = closed (second s)
     ∧ owed s = (weight v + owed s')%nat)
  ∧ (∀ v, select2 pick None None s = SelectSecond v s' →
       closed (first s') = closed (first s)
       ∧ closed (second s') = closed (second s)
       ∧ owed s = (weight v + owed s')%nat).
Proof.
  unfold select2, owed.
  destruct (recv None (first s)) as [|va ca] eqn:Ha;
    destruct (recv None (second s)) as [|vb cb] eqn:Hb;
    try apply recv_accounts in Ha as [Hca Hwa];
    try apply recv_accounts in Hb as [Hcb Hwb];
    (split; intros v Hsel); try done;
    try destruct pick; simplify_eq; simpl; repeat split; try done; lia.
Qed.

Section Accounting.
Context {A B : Type} (body : bool → Sources (option A) (option B)
                              → Pass (option A) (option B)).
Context (k : nat) (P : string → Prop).
Hypothesis body_continues :
  ∀ pick s fl s' out, body pick s = Some (fl, s', out) → fl = Continue.
Hypothesis body_accounts :
  ∀ pick s fl s' out, body pick s = Some (fl, s', out) →
    closed (first s') = closed (first s)
    ∧ closed (second s') = closed (second s)
    ∧ (length out + k * owed s' = k * owed s)%nat
    ∧ Forall P out.

Lemma run_loop_accounts ticks :
  ∀ l, status l = Running →
    ∃ lines,
      printed (run_loop body ticks l) = printed l ++ lines
      ∧ Forall P lines
      ∧ (length lines + k * owed (sources (run_loop body ticks l))
         = k * owed (sources l)
           + k * accepted ticks (closed (first (sources l)))
                   (closed (second (sources l))))%nat.
Proof.
  induction ticks as [|t ticks IH]; intros l Hl.
  - exists []. simpl. rewrite app_nil_r. repeat split; [constructor|lia].
  - pose proof (loop_step_running body body_continues l t Hl) as Hl'.
    destruct (IH _ Hl') as (lines & Hp & HP & Hacc). clear IH.
    unfold run_loop in *. simpl. revert Hp HP Hacc.
    unfold loop_step. rewrite Hl. destruct l as [st [c1 c2] pr]. simpl in *.
    destruct t as [v|v| | |pick]; simpl.
    + intros Hp HP Hacc. exists lines. split; [done|]. split; [done|].
      rewrite Hacc. unfold owed, send, waiting. simpl.
      destruct (closed c1) eqn:Hc1; simpl; rewrite ?Hc1.
      * destruct v; simpl; lia.
      * rewrite omap_app, length_app. destruct v; simpl; lia.
    + intros Hp HP Hacc. exists lines. split; [done|]. split; [done|].
      rewrite Hacc. unfold owed, send, waiting. simpl.
      destruct (closed c2) eqn:Hc2; simpl; rewrite ?Hc2.
      * destruct v; simpl; lia.
      * rewrite omap_app, length_app. destruct v; simpl; lia.
    + intros Hp HP Hacc. exists lines. done.
    + intros Hp HP Hacc. exists lines. done.
    + destruct (body pick {| first := c1; second := c2 |})
        as [[[fl s'] out]|] eqn:Hbody.
      * pose proof (body_continues _ _ _ _ _ Hbody) as ->.
        destruct (body_accounts _ _ _ _ _ Hbody) as (H1 & H2 & H3 & H4).
        simpl in *. intros Hp HP Hacc. exists (out ++ lines).
        rewrite Hp, <- app_assoc. split; [done|].
        split; [by apply Forall_app|].
        rewrite length_app, H1, H2 in *. lia.
      * intros Hp HP Hacc. exists lines. done.
Qed.
End Accounting.

Lemma ShowErrors_body_accounts pick s fl s' out :
  ShowErrors_body pick s = Some (fl, s', out) →
  closed (first s') = closed (first s)
  ∧ closed (second s') = closed (second s)
  ∧ (length out + 1 * owed s' = 1 * owed s)%nat
  ∧ Forall (λ line, ∃ e, line = "Error occoured:  " +:+ e) out.
Proof.
  unfold ShowErrors_body.
  destruct (select2_accounts pick s s') as [H1 H2].
  destruct (select2 pick None None s) as [|v s1|v s1] eqn:Hsel; [done| |].
  - destruct v as [e|]; intros [= <- <- <-];
      destruct (H1 _ eq_refl) as (? & ? & ?); repeat split; simpl in *;
      try done; try lia; try (repeat constructor; by exists e).
  - destruct v as [e|]; intros [= <- <- <-];
      destruct (H2 _ eq_refl) as (? & ? & ?); repeat split; simpl in *;
      try done; try lia; try (repeat constructor; by exists e).
Qed.

Lemma ShowNotifications_body_accounts pick s fl s' out :
  ShowNotifications_body pick s = Some (fl, s', out) →
  closed (first s') = closed (first s)
  ∧ closed (second s') = closed (second s)
  ∧ (length out + 2 * owed s' = 2 * owed s)%nat
  ∧ Forall notification_line out.
Proof.
  unfold ShowNotifications_body.
  destruct (select2_accounts pick s s') as [H1 H2].
  destruct (select2 pick None None s) as [|v s1|v s1] eqn:Hsel; [done| |].
  - destruct v as [n|]; intros [= <- <- <-];
      destruct (H1 _ eq_refl) as (? & ? & ?); repeat split; simpl in *;
      try done; try lia.
    repeat constructor; eexists; eauto.
  - destruct v as [m|]; intros [= <- <- <-];
      destruct (H2 _ eq_refl) as (? & ? & ?); repeat split; simpl in *;
      try done; try lia.
    repeat constructor; eexists; eauto.
Qed.



Lemma loadConfig_decodes_only_the_PEM_fields_witness :
  ∃ c,
    envdecode_MustDecode (staging_world encoded_config) = inl c
    ∧ URL (sample_config "ROOT PEM" "") = URL c
    ∧ base64_DecodeString (staging_world encoded_config) <$> pem_fields c
      = inl <$> pem_fields (sample_config "ROOT PEM" "").
Proof.
  destruct (loadConfig_decodes_only_the_PEM_fields
              (staging_world encoded_config) [] [] (sample_config "ROOT PEM" ""))
    as (_ & c & H1 & H2 & _ & _ & H5).
  - vm_compute. reflexivity.
  - exists c. split; [exact H1|]. split; [exact H2|]. exact H5.
Defined.

Lemma Connect_malformed_base64_is_fatal_witness :
  Connect (staging_world half_encoded_config) (mkClient None None None) []
  = (Fatal "Cannot parse base64", connecting ++ [Logged "Cannot parse base64"]).
Proof.
  apply (Connect_malformed_base64_is_fatal (staging_world half_encoded_config)
           (mkClient None None None) half_encoded_config).
  - reflexivity.
  - vm_compute. discriminate.
  - apply Exists_cons_tl, Exists_cons_hd.
    exists "illegal base64 data at input byte 0". vm_compute. reflexivity.
Defined.

Lemma verifyBrokers_stops_at_first_failure_witness :
  ∃ good b rest e,
    ["a.example:9096"; "b.example:9096"; "c.example:9096"] = good ++ b :: rest
    ∧ "Get Server Cert Error: x509: certificate signed by unknown authority"
      = "Get Server Cert Error: " +:+ e.
Proof.
  destruct (verifyBrokers_stops_at_first_failure rogue_world sample_tls "ROOT PEM"
              ["a.example:9096"; "b.example:9096"; "c.example:9096"] []
              "Get Server Cert Error: x509: certificate signed by unknown authority")
    as (good & b & rest & e & H1 & H2 & _).
  - vm_compute. reflexivity.
  - exists good, b, rest, e. split; [exact H1 | exact H2].
Defined.

Lemma Connect_constructs_against_verified_endpoints_witness :
  ∃ config t cert,
    loadConfig (sample_world (sample_config "ROOT PEM" "p.") "") connecting
    = (Ret config, t)
    ∧ tls_X509KeyPair (sample_world (sample_config "ROOT PEM" "p.") "")
        (ClientCert config) (ClientCertKey config) = inl cert
    ∧ pem_certificates (sample_world (sample_config "ROOT PEM" "p.") "")
        (TrustedCert config) ≠ [].
Proof.
  destruct (Connect_constructs_against_verified_endpoints
              (sample_world (sample_config "ROOT PEM" "p.") "")
              (mkClient None None None)
              (NewAsyncProducer ["a.example:9096"; "b.example:9096"; "c.example:9096"]
                 (producerConfig (sample_world (sample_config "ROOT PEM" "p.") "")
                    (sample_config "ROOT PEM" "p.") sample_tls (time.mkTime 1 0))))
    as (config & t & cert & H1 & H2 & H3 & _).
  - vm_compute. repeat constructor.
  - reflexivity.
  - exists config, t, cert. split; [exact H1|]. split; [exact H2 | exact H3].
Defined.

Lemma verifyServerCert_result_is_consistent_witness :
  (true = true ↔ (None : option error) = None)
  ∧ dials (drop (length ([] : Trace)) [Dialed "tcp" "a.example:9096"])
    = [("tcp", "a.example:9096")].
Proof.
  destruct (verifyServerCert_result_is_consistent
              (sample_world (sample_config "ROOT PEM" "") "")
              sample_tls "ROOT PEM" "a.example:9096" []
              [Dialed "tcp" "a.example:9096"] true None)
    as (H1 & H2 & _).
  - vm_compute. reflexivity.
  - split; [exact H1 | exact H2].
Defined.

(** Outside production the material is decoded before it is used. *)
Example Connect_staging_run :
  (Connect (staging_world encoded_config) (mkClient None None None) []).1
  = Ret (mkClient (Some 2%nat) (Some 1%nat) (Some (sample_config "ROOT PEM" ""))).
Proof. vm_compute. reflexivity. Qed.

(** Two errors and a nil are delivered, one error is reported so far. *)
Example ShowErrors_sample :
  ShowErrors [SendFirst (Some "broker down"); SendSecond None;
              SendSecond (Some "timeout"); Iterate true]
    (mkSources (mkChan [] false) (mkChan [] false))
  = mkLoop Running
      (mkSources (mkChan [] false) (mkChan [None; Some "timeout"] false))
      ["Starting Kafka Errors go routine..."; "Error occoured:  broker down"].
Proof. vm_compute. reflexivity. Qed.

(** ** Shutdown, whatever the library does *)

Lemma act_ended lib p a : ended p ≠ None → act lib p a = p.
Proof. unfold act. by destruct (ended p). Qed.

Lemma run_ended lib schedule p : ended p ≠ None → run lib schedule p = p.
Proof.
  revert p. induction schedule as [|a rest IH]; intros p Hp; [done|].
  unfold run in *. simpl. rewrite act_ended by done. by apply IH.
Qed.

Lemma act_closes lib p a h :
  (closes (act lib p a) h ≤ closes p h + close_calls h [a])%nat.
Proof.
  unfold act, close_calls. destruct (ended p); [lia|].
  destruct a as [text|h'|code]; [by destruct h; simpl; lia| |by destruct h; simpl; lia].
  destruct (lib h' (closes p h')); destruct h, h'; simpl; lia.
Qed.

Lemma close_calls_cons h a rest :
  close_calls h (a :: rest) = (close_calls h [a] + close_calls h rest)%nat.
Proof.
  unfold close_calls. rewrite (filter_app _ [a] rest). by rewrite length_app.
Qed.

Lemma close_calls_here h : close_calls h [Close h] = 1%nat.
Proof. unfold close_calls. by rewrite filter_cons_True. Qed.

Lemma run_closes lib schedule :
  ∀ p h, (closes (run lib schedule p) h ≤ closes p h + close_calls h schedule)%nat.
Proof.
  induction schedule as [|a rest IH]; intros p h.
  - unfold close_calls. simpl. lia.
  - rewrite close_calls_cons. unfold run in *. simpl.
    specialize (IH (act lib p a) h). pose proof (act_closes lib p a h). lia.
Qed.

Lemma run_crash_origin lib schedule :
  ∀ p msg,
    ended (run lib schedule p) = Some (Crashes msg) →
    ended p = Some (Crashes msg)
    ∨ ∃ h n, (n < closes p h + close_calls h schedule)%nat ∧ lib h n = Panics msg.
Proof.
  induction schedule as [|a rest IH]; intros p msg Hend; [by left|].
  unfold run in *. simpl in Hend.
  destruct (IH _ _ Hend) as [Hact|(h & n & Hn & Hlib)].
  - destruct (ended p) as [e|] eqn:Hp.
    + left. rewrite act_ended in Hact by (by rewrite Hp). by rewrite <- Hp.
    + right. unfold act in Hact. rewrite Hp in Hact.
      destruct a as [text|h|code]; simpl in Hact; try done.
      destruct (lib h (closes p h)) as [err|msg'] eqn:Hlib;
        [by destruct h|].
      exists h, (closes p h). split.
      * rewrite close_calls_cons, close_calls_here. lia.
      * rewrite Hlib. destruct h; simpl in Hact; congruence.
  - right. exists h, n. split; [|done].
    rewrite close_calls_cons. pose proof (act_closes lib p a h). lia.
Qed.

Lemma run_exit_origin lib schedule :
  ∀ p code,
    ended (run lib schedule p) = Some (Exits code) →
    ended p = Some (Exits code) ∨ Exit code ∈ schedule.
Proof.
  induction schedule as [|a rest IH]; intros p code Hend; [by left|].
  unfold run in *. simpl in Hend.
  destruct (IH _ _ Hend) as [Hact|Hin]; [|right; by right].
  destruct (ended p) as [e|] eqn:Hp.
  - left. rewrite act_ended in Hact by (by rewrite Hp). by rewrite <- Hp.
  - unfold act in Hact. rewrite Hp in Hact.
    destruct a as [text|h|code']; simpl in Hact; try done.
    + destruct (lib h (closes p h)); by destruct h.
    + right. injection Hact as ->. by left.
Qed.

Lemma run_reaches_an_end lib schedule :
  ∀ p, (∃ code, Exit code ∈ schedule) → ended (run lib schedule p) ≠ None.
Proof.
  induction schedule as [|a rest IH]; intros p [code Hin].
  - by apply elem_of_nil in Hin.
  - unfold run in *. simpl.
    destruct (ended p) as [e|] eqn:Hp.
    { rewrite act_ended by (by rewrite Hp).
      fold (run lib rest p). rewrite run_ended; by rewrite Hp. }
    apply elem_of_cons in Hin as [<-|Hin]; [|apply IH; eauto].
    fold (run lib rest (act lib p (Exit code))).
    rewrite run_ended; unfold act; by rewrite Hp.
Qed.

(** X12: whatever the library's [Close] does (return, fail or panic), in
    every interleaving of the signal handler and the return of [main] the
    process ends; [Close] is called at most twice on each handle; an exit
    has status 0 or 1; and a crash is a panic of one of the first two
    calls of [Close] on some handle, never of the program's own making. *)
Theorem shutdown_ends_whatever_the_library
    (lib : CloseLib) (schedule : list Action) :
  schedule ∈ interleavings signal_handler main_return →
  let p := run lib schedule started in
  (∀ h, closes p h ≤ 2)%nat
  ∧ ended p ≠ None
  ∧ (∀ code, ended p = Some (Exits code) → code = 0 ∨ code = 1)
  ∧ (∀ msg, ended p = Some (Crashes msg) →
       ∃ h n, (n < 2)%nat ∧ lib h n = Panics msg).
Proof.
  intros Hin p. subst p.
  assert (forallb two_closes_and_an_exit
            (interleavings signal_handler main_return) = true) as Hall
    by (vm_compute; reflexivity).
  rewrite forallb_forall in Hall. apply list_elem_of_In, Hall in Hin.
  unfold two_closes_and_an_exit in Hin.
  apply andb_prop in Hin as [Hin Hcodes]. apply andb_prop in Hin as [Hin Hexit].
  apply andb_prop in Hin as [HP HC].
  apply bool_decide_eq_true in HP, HC.
  assert (∀ h, close_calls h schedule = 2%nat) as Hcalls by (by intros []).
  split; [|split; [|split]].
  - intros h. pose proof (run_closes lib schedule started h) as Hle.
    rewrite Hcalls in Hle. by destruct h.
  - apply run_reaches_an_end. apply existsb_exists in Hexit as (a & Ha & Hx).
    destruct a as [| |code]; try done. exists code. by apply list_elem_of_In.
  - intros code Hend. apply run_exit_origin in Hend as [Hend|Hend]; [done|].
    rewrite forallb_forall in Hcodes. apply list_elem_of_In, Hcodes in Hend.
    by apply bool_decide_eq_true in Hend.
  - intros msg Hend. apply run_crash_origin in Hend as [Hend|(h & n & Hn & Hlib)];
      [done|].
    exists h, n. split; [|done]. rewrite Hcalls in Hn. by destruct h.
Qed.

Lemma shutdown_ends_whatever_the_library_witness :
  ended (run strict_lib handler_then_deferred started) ≠ None
  ∧ (∀ h, closes (run strict_lib handler_then_deferred started) h ≤ 2)%nat.
Proof.
  destruct (shutdown_ends_whatever_the_library strict_lib handler_then_deferred)
    as (H1 & H2 & _).
  - apply (bool_decide_unpack _). vm_compute. exact I.
  - split; [exact H2 | exact H1].
Defined.
